(** * GEL / HMesh : smooth.cpp

    A shallow embedding of [src/GEL/HMesh/smooth.cpp] (mesh smoothing on a
    half-edge mesh) and the properties of it that the specification states
    (sections 9 to 15), followed by further properties read off the code
    (sections 16 on).

    Conventions.
    - C++ [double] is Rocq's primitive binary64 [float]; C++ [float] is a
      binary64 value rounded to binary32 by [to_float32] after each
      assignment.
    - C++ [int] and [size_t] are [Z]; where the C++ is undefined (signed
      overflow, division by zero, a failed [assert]) the model returns a
      [Fault] instead of a value.
    - The mesh is the external collaborator: its traversal results (the
      walkers visited by a circulation) are fields of [Manifold]; its
      geometric primitives and the C mathematics library are the class
      [Collaborators]. *)

From Stdlib Require Import ZArith Lia Bool.
From Stdlib Require Import Floats.PrimFloat Floats.FloatOps Floats.SpecFloat.
From Stdlib Require Numbers.Cyclic.Int63.Uint63.
From Stdlib Require Floats.FloatAxioms.
From stdpp Require Import base option list gmap.

Set Default Proof Using "Type".
#[local] Set Warnings "-inexact-float".

(* ===================================================================== *)
(** * 1. Numbers                                                          *)
(* ===================================================================== *)

(** ** Machine integers *)

Definition INT_MAX : Z := 2147483647.
Definition INT_MIN : Z := -2147483648.

(** What the C++ leaves undefined, or aborts on. *)
Inductive fault : Set :=
  | DivisionByZero
  | SignedOverflow
  | AssertionFailed.

Inductive result (A : Type) : Type :=
  | Ok (a : A)
  | Fault (f : fault).
Arguments Ok {A} a.
Arguments Fault {A} f.

Definition bind {A B : Type} (r : result A) (k : A -> result B) : result B :=
  match r with
  | Ok a => k a
  | Fault f => Fault f
  end.

Notation "x <-- r ;; k" := (bind r (fun x => k))
  (at level 100, r at next level, right associativity,
   format "'[v' x  <--  r  ;;  '/' k ']'").

(** A loop over a container whose body may fault. *)
Fixpoint for_each {A S : Type} (body : S -> A -> result S) (l : list A) (s : S)
  : result S :=
  match l with
  | [] => Ok s
  | a :: l' => s' <-- body s a ;; for_each body l' s'
  end.

(** [int] arithmetic: defined only while the result is representable. *)
Definition int_in_range (z : Z) : bool := ((INT_MIN <=? z) && (z <=? INT_MAX))%Z.

Definition int_mul (a b : Z) : result Z :=
  if int_in_range (a * b) then Ok (a * b)%Z else Fault SignedOverflow.

(** [cnt++] on an [int]: the old value, and the incremented variable. *)
Definition post_increment (cnt : Z) : result (Z * Z) :=
  if int_in_range (cnt + 1) then Ok (cnt, (cnt + 1)%Z) else Fault SignedOverflow.

(** ** Floating point *)

(** Conversion [double -> float] (round to nearest even, binary32). *)
Definition to_float32 (x : float) : float :=
  match Prim2SF x with
  | S754_finite s m e => SF2Prim (binary_normalize 24 128 (cond_Zopp s (Z.pos m)) e s)
  | _ => x
  end.

(** Conversion [int -> double]; exact below 2^53. *)
Definition double_of_int (z : Z) : float :=
  if (z <? 0)%Z then (- of_uint63 (Uint63.of_Z (- z)))%float
  else of_uint63 (Uint63.of_Z z).

(** [std::max(a, b)] is [(a < b) ? b : a]; [std::min(a, b)] is
    [(b < a) ? b : a].  With a NaN second argument both return [a]. *)
Definition std_max (a b : float) : float := if (a <? b)%float then b else a.
Definition std_min (a b : float) : float := if (b <? a)%float then b else a.

(** [std::isnan]. *)
Definition isnan (x : float) : bool := is_nan x.

(** [Util::sqr]. *)
Definition sqr (x : float) : float := (x * x)%float.

Definition M_PI : float := 0x1.921fb54442d18p+1%float.

(** ** CGLA::Vec3d *)

Record Vec3d : Set := mkVec3d { vx : float; vy : float; vz : float }.

(** [Vec3d(a)]: all three coordinates equal to [a]. *)
Definition Vec3d_of (a : float) : Vec3d := mkVec3d a a a.
Definition Vec3d_zero : Vec3d := Vec3d_of 0%float.

#[global] Instance Vec3d_inhabited : Inhabited Vec3d := populate Vec3d_zero.
#[global] Instance float_inhabited : Inhabited float := populate 0%float.

(** Modelled from the spec: CGLA's vector arithmetic (the vector library is
    not under src/): every operator acts coordinate by coordinate in
    binary64, [dot] adds the three products from left to right, and
    [normalize] divides by the length. *)
Definition vadd (a b : Vec3d) : Vec3d :=
  mkVec3d (vx a + vx b) (vy a + vy b) (vz a + vz b)%float.
Definition vsub (a b : Vec3d) : Vec3d :=
  mkVec3d (vx a - vx b) (vy a - vy b) (vz a - vz b)%float.
(** [k * v]. *)
Definition smul (k : float) (v : Vec3d) : Vec3d :=
  mkVec3d (vx v * k) (vy v * k) (vz v * k)%float.
(** [v * k]. *)
Definition vscale (v : Vec3d) (k : float) : Vec3d :=
  mkVec3d (vx v * k) (vy v * k) (vz v * k)%float.
(** [v / k]. *)
Definition vdiv (v : Vec3d) (k : float) : Vec3d :=
  mkVec3d (vx v / k) (vy v / k) (vz v / k)%float.
Definition dot (a b : Vec3d) : float :=
  (0 + vx a * vx b + vy a * vy b + vz a * vz b)%float.
Definition sqr_length (v : Vec3d) : float := dot v v.
Definition length3 (v : Vec3d) : float := PrimFloat.sqrt (sqr_length v).
Definition normalize (v : Vec3d) : Vec3d := vdiv v (length3 v).

Definition vec_isnan (v : Vec3d) : bool := isnan (vx v) || isnan (vy v) || isnan (vz v).
Definition is_finite (x : float) : bool := negb (is_nan x) && negb (is_infinity x).
Definition vec_is_finite (v : Vec3d) : bool :=
  is_finite (vx v) && is_finite (vy v) && is_finite (vz v).

(** A zero of either sign, or NaN: what a product with 0 is, and what a sum
    of such products is. *)
Definition zero_or_nan (x : float) : Prop :=
  match Prim2SF x with
  | S754_zero _ | S754_nan => True
  | _ => False
  end.
Definition vec_zero_or_nan (v : Vec3d) : Prop :=
  zero_or_nan (vx v) /\ zero_or_nan (vy v) /\ zero_or_nan (vz v).

(** Sum of a list of vectors, accumulated from the zero vector, left to right. *)
Definition vsum (l : list Vec3d) : Vec3d := fold_left vadd l Vec3d_zero.

(* ===================================================================== *)
(** * 2. The mesh and its collaborators                                   *)
(* ===================================================================== *)

(** Handles into the mesh.  [InvalidFaceID] is [None] of [option FaceID]. *)
Abbreviation VertexID := nat (only parsing).
Abbreviation FaceID := nat (only parsing).
Abbreviation HalfEdgeID := nat (only parsing).

(** An attribute vector indexed by vertex or face handle. *)
Abbreviation Positions := (gmap nat Vec3d) (only parsing).

(** What smooth.cpp reads of a [Manifold]: the three element ranges, in mesh
    order, the boundary predicate, the walker's accessors on a half-edge, the
    walkers a circulation visits until [full_circle()], and the position
    attribute vector, the only part a smoothing call changes. *)
Record Manifold : Type := mkManifold {
  vertices : list VertexID;                 (* m.vertices() *)
  faces : list FaceID;                      (* m.faces() *)
  halfedges : list HalfEdgeID;              (* m.halfedges() *)
  boundary : VertexID -> bool;              (* boundary(m, v) *)
  w_vertex : HalfEdgeID -> VertexID;        (* m.walker(h).vertex() *)
  w_face : HalfEdgeID -> option FaceID;     (* m.walker(h).face() *)
  w_next : HalfEdgeID -> HalfEdgeID;        (* .next() *)
  w_prev : HalfEdgeID -> HalfEdgeID;        (* .prev() *)
  w_opp : HalfEdgeID -> HalfEdgeID;         (* .opp() *)
  w_ccw : HalfEdgeID -> HalfEdgeID;         (* .circulate_vertex_ccw() *)
  ring_ccw : VertexID -> list HalfEdgeID;   (* m.walker(v), circulate_vertex_ccw *)
  ring_cw : VertexID -> list HalfEdgeID;    (* m.walker(v), circulate_vertex_cw *)
  face_cw : FaceID -> list HalfEdgeID;      (* m.walker(f), circulate_face_cw *)
  positions : Positions                     (* m.positions_attribute_vector() *)
}.

(** [m.pos(v)]. *)
Definition pos (m : Manifold) (v : VertexID) : Vec3d := positions m !!! v.

(** The mesh with its position attribute vector replaced. *)
Definition with_positions (m : Manifold) (p : Positions) : Manifold :=
  mkManifold (vertices m) (faces m) (halfedges m) (boundary m)
    (w_vertex m) (w_face m) (w_next m) (w_prev m) (w_opp m) (w_ccw m)
    (ring_ccw m) (ring_cw m) (face_cw m) p.

(** [m.pos(v) = p]. *)
Definition set_pos (m : Manifold) (v : VertexID) (p : Vec3d) : Manifold :=
  with_positions m (<[v := p]> (positions m)).

(** [m.no_vertices()], a [size_t]: the number of vertices in use, those
    [m.vertices()] ranges over. *)
Definition no_vertices (m : Manifold) : Z := Z.of_nat (length (vertices m)).

(** The functions smooth.cpp calls and does not define: the C mathematics
    library, CGLA's [cond_normalize] and default-constructed [Vec3d], and
    HMesh's geometric primitives (which read the current positions). *)
Class Collaborators : Type := {
  c_sin : float -> float;
  c_acos : float -> float;
  c_exp : float -> float;
  cond_normalize : Vec3d -> Vec3d;
  Vec3d_default : Vec3d;                          (* Vec3d() *)
  laplacian : Manifold -> VertexID -> Vec3d;
  normal : Manifold -> FaceID -> Vec3d;
  centre : Manifold -> FaceID -> Vec3d;
  area : Manifold -> FaceID -> float;
  edge_length : Manifold -> HalfEdgeID -> float     (* length(m, h) *)
}.

(* ===================================================================== *)
(** * 3. The parallel batch scheduler                                     *)
(* ===================================================================== *)

Definition CORES : Z := 8.

Abbreviation VertexIDBatches := (list (list nat)) (only parsing).

(** [auto batch_size = m.no_vertices()/CORES;] (unsigned division). *)
Definition batch_size (m : Manifold) : Z := (no_vertices m / CORES)%Z.

(** [(cnt/batch_size)%CORES] on [size_t]; [cnt] is never negative. *)
Definition batch_index (bs cnt : Z) : result Z :=
  if (bs =? 0)%Z then Fault DivisionByZero
  else Ok ((cnt / bs) mod CORES)%Z.

(** [vertex_ids[i].push_back(v)]. *)
Definition push_back (ids : VertexIDBatches) (i : nat) (v : VertexID)
  : VertexIDBatches :=
  alter (fun b => b ++ [v]) i ids.

(** The body of the [for_each_vertex] lambda; the state is [(cnt, vertex_ids)]. *)
Definition batch_step (m : Manifold) (bs : Z) (st : Z * VertexIDBatches)
  (v : VertexID) : result (Z * VertexIDBatches) :=
  if boundary m v then Ok st
  else
    c <-- post_increment (fst st) ;;
    i <-- batch_index bs (fst c) ;;
    Ok (snd c, push_back (snd st) (Z.to_nat i) v).

Definition batch_vertices (m : Manifold) : result VertexIDBatches :=
  let vertex_ids := replicate (Z.to_nat CORES) [] in
  st <-- for_each (batch_step m (batch_size m)) (vertices m) (0%Z, vertex_ids) ;;
  Ok (snd st).

(** The vertices [batch_vertices] accepts, in mesh order. *)
Definition accepted (m : Manifold) (l : list VertexID) : list VertexID :=
  List.filter (fun v => negb (boundary m v)) l.

(** What holds of [(cnt, vertex_ids)] once the vertices [pre] have been
    visited: eight batches, holding the accepted vertices among [pre], and
    [cnt] their number. *)
Definition batch_inv (m : Manifold) (pre : list VertexID)
  (st : Z * VertexIDBatches) : Prop :=
  length (snd st) = Z.to_nat CORES /\
  concat (snd st) ≡ₚ accepted m pre /\
  fst st = Z.of_nat (length (accepted m pre)).




(** [range(begin, end)]: the iterator holds an [unsigned long], is advanced
    by [++] and compared with [!=], so the loop runs [(end - begin) mod 2^64]
    times. *)
Definition range (b e : Z) : list Z := seqZ b ((e - b) mod 2 ^ 64).

(** [for_each_vertex_parallel(no_threads, batches, f)]: one thread per batch,
    joined before returning.  Each [f] reads the mesh and writes the
    scratch buffer only, so the threads are run here one after the other,
    batch 0 first. *)
Definition for_each_vertex_parallel {S : Type} (no_threads : Z)
  (batches : VertexIDBatches) (f : list VertexID -> S -> S) (s : S) : S :=
  fold_left (fun s t => f (batches !!! Z.to_nat t) s) (range 0 no_threads) s.

(* ===================================================================== *)
(** * 4. Laplacian, cotangent Laplacian and Taubin smoothing              *)
(* ===================================================================== *)

Section Smoothing.
Context `{Collaborators}.

(** The lambda [f] of [laplacian_smooth]: it reads [m] and writes [new_pos]. *)
Definition laplacian_write (weight : float) (m : Manifold)
  (vids : list VertexID) (new_pos : Positions) : Positions :=
  fold_left
    (fun np v => <[v := vadd (pos m v) (smul weight (laplacian m v))]> np)
    vids new_pos.

(** One iteration of [laplacian_smooth]; the state is [(m, new_pos)]. *)
Definition laplacian_iteration (weight : float) (vertex_ids : VertexIDBatches)
  (st : Manifold * Positions) : Manifold * Positions :=
  let new_pos :=
    for_each_vertex_parallel CORES vertex_ids (laplacian_write weight (fst st))
      (snd st) in
  (* swap(m.positions_attribute_vector(), new_pos) *)
  (with_positions (fst st) new_pos, positions (fst st)).

Definition laplacian_smooth (m : Manifold) (weight : float) (max_iter : Z)
  : result Manifold :=
  vertex_ids <-- batch_vertices m ;;
  let new_pos := positions m in
  Ok (fst (fold_left (fun st _ => laplacian_iteration weight vertex_ids st)
             (range 0 max_iter) (m, new_pos))).

(** The state [(m, new_pos)] of [laplacian_smooth] after [n] passes of its
    loop. *)
Fixpoint laplacian_after (weight : float) (vertex_ids : VertexIDBatches)
  (m : Manifold) (n : nat) : Manifold * Positions :=
  match n with
  | O => (m, positions m)
  | S n' => laplacian_iteration weight vertex_ids (laplacian_after weight vertex_ids m n')
  end.

(** The weight of one wedge of [cot_laplacian]. *)
Definition cot_weight (vertex nbr left right : Vec3d) : float :=
  let d_left := dot (cond_normalize (vsub nbr left))
                    (cond_normalize (vsub vertex left)) in
  let d_right := dot (cond_normalize (vsub nbr right))
                     (cond_normalize (vsub vertex right)) in
  let a_left := c_acos (std_min 1 (std_max (-1) d_left)) in
  let a_right := c_acos (std_min 1 (std_max (-1) d_right)) in
  (c_sin (a_left + a_right) / (1e-10 + c_sin a_left * c_sin a_right))%float.

(** The three positions the lambda of [cot_laplacian] reads at walker [wv]. *)
Definition wedge_nbr (m : Manifold) (wv : HalfEdgeID) : Vec3d :=
  pos m (w_vertex m wv).
Definition wedge_left (m : Manifold) (wv : HalfEdgeID) : Vec3d :=
  pos m (w_vertex m (w_next m wv)).
Definition wedge_right (m : Manifold) (wv : HalfEdgeID) : Vec3d :=
  pos m (w_vertex m (w_opp m (w_prev m (w_opp m wv)))).

Definition wedge_weight (m : Manifold) (v : VertexID) (wv : HalfEdgeID) : float :=
  cot_weight (pos m v) (wedge_nbr m wv) (wedge_left m wv) (wedge_right m wv).

(** The circulation of [cot_laplacian]: the state is [(p, w_sum)]. *)
Definition cot_accumulate (m : Manifold) (v : VertexID) : Vec3d * float :=
  fold_left
    (fun st wv =>
       let w := wedge_weight m v wv in
       (vadd (fst st) (smul w (wedge_nbr m wv)), (snd st + w)%float))
    (ring_ccw m v) (Vec3d_of 0, 0%float).

(** The test of line 120. *)
Definition cot_guard (p : Vec3d) (w_sum : float) : bool :=
  (w_sum <? 1e-20)%float || isnan (vx p) || isnan (vy p) || isnan (vz p).

(** Lines 120-122. *)
Definition cot_result (p : Vec3d) (w_sum : float) (vertex : Vec3d) : Vec3d :=
  if cot_guard p w_sum then Vec3d_of 0
  else vsub (vdiv p w_sum) vertex.

Definition cot_laplacian (m : Manifold) (v : VertexID) : Vec3d :=
  let acc := cot_accumulate m v in
  cot_result (fst acc) (snd acc) (pos m v).

(** The cotangent Laplacian as the specification words it (4.2): for each
    wedge the two angles opposite the edge to the neighbour, by [acos] of the
    clamped dot product of the normalised edge vectors; the weight
    [sin(a_left + a_right) / (eps + sin(a_left) sin(a_right))] with
    [eps = 1e-10]; the result [(sum w nbr) / (sum w) - position(v)]. *)
Definition spec_clamp (x : float) : float := std_min 1 (std_max (-1) x).

Definition spec_angle (apex a b : Vec3d) : float :=
  c_acos (spec_clamp (dot (cond_normalize (vsub a apex))
                          (cond_normalize (vsub b apex)))).

Definition spec_weight (m : Manifold) (v : VertexID) (wv : HalfEdgeID) : float :=
  let a_left := spec_angle (wedge_left m wv) (wedge_nbr m wv) (pos m v) in
  let a_right := spec_angle (wedge_right m wv) (wedge_nbr m wv) (pos m v) in
  (c_sin (a_left + a_right) / (1e-10 + c_sin a_left * c_sin a_right))%float.





(** [(iter%2 == 0 ? +0.5 : -0.52)]. *)
Definition taubin_step (iter : Z) : float :=
  if (iter mod 2 =? 0)%Z then 0.5%float else (-0.52)%float.

(** The vertex loop of one sub-iteration of [taubin_smooth]. *)
Definition taubin_write (iter : Z) (m : Manifold) (new_pos : Positions)
  : Positions :=
  fold_left
    (fun np v =>
       if boundary m v then np
       else <[v := vadd (smul (taubin_step iter) (laplacian m v)) (pos m v)]> np)
    (vertices m) new_pos.

(** One sub-iteration of [taubin_smooth]; the state is [(m, new_pos)]. *)
Definition taubin_iteration (st : Manifold * Positions) (iter : Z)
  : Manifold * Positions :=
  let new_pos := taubin_write iter (fst st) (snd st) in
  (* swap(m.positions_attribute_vector(), new_pos) *)
  (with_positions (fst st) new_pos, positions (fst st)).

(** The state of [taubin_smooth] after its first [n] sub-iterations, the
    sub-iteration of index [n - 1] being the last one run. *)
Fixpoint taubin_after (m : Manifold) (n : nat) : Manifold * Positions :=
  match n with
  | O => (m, positions m)
  | S n' => taubin_iteration (taubin_after m n') (Z.of_nat n')
  end.

Definition taubin_smooth (m : Manifold) (max_iter : Z) : result Manifold :=
  n <-- int_mul 2 max_iter ;;
  Ok (fst (fold_left taubin_iteration (seqZ 0 n) (m, positions m))).

End Smoothing.

(* ===================================================================== *)
(** * 5. Normal filters                                                   *)
(* ===================================================================== *)

Inductive NormalSmoothMethod : Set :=
  | FVM_NORMAL_SMOOTH
  | BILATERAL_NORMAL_SMOOTH.

Section NormalFilter.
Context `{Collaborators}.

(** The body of the inner loop of [face_neighbourhood]; the state is
    [(touched, nbrs)], [touched] defaulting to -1. *)
Definition neighbourhood_visit (m : Manifold) (f : FaceID)
  (st : gmap nat Z * list FaceID) (wv : HalfEdgeID) : gmap nat Z * list FaceID :=
  match w_face m wv with
  | Some fn =>
      if decide (default (-1)%Z (fst st !! fn) <> default (-1)%Z (fst st !! f))
      then (<[fn := 1%Z]> (fst st), snd st ++ [fn])
      else st
  | None => st
  end.

Definition face_neighbourhood (m : Manifold) (f : FaceID) (nbrs : list FaceID)
  : list FaceID :=
  let touched : gmap nat Z := <[f := 1%Z]> ∅ in
  let nbrs := nbrs ++ [f] in
  snd (fold_left
         (fun st wf =>
            fold_left (neighbourhood_visit m f) (ring_cw m (w_vertex m wf)) st)
         (face_cw m f) (touched, nbrs)).

(** The walkers the two loops of [face_neighbourhood] visit, in order. *)
Definition neighbourhood_walkers (m : Manifold) (f : FaceID) : list HalfEdgeID :=
  concat (map (fun wf => ring_cw m (w_vertex m wf)) (face_cw m f)).

(** What holds of [(touched, nbrs)] once the walkers [pre] have been
    visited, [nbrs] having been empty on entry: the faces recorded are the
    ones marked in [touched], none is recorded twice, [f] comes first, and
    the others are the faces of the walkers visited. *)
Definition neighbourhood_inv (m : Manifold) (f : FaceID) (pre : list HalfEdgeID)
  (st : gmap nat Z * list FaceID) : Prop :=
  (forall g, fst st !! g = if decide (g ∈ snd st) then Some 1%Z else None) /\
  NoDup (snd st) /\
  (exists l, snd st = f :: l) /\
  (forall g, g ∈ snd st <-> g = f \/ exists wv, wv ∈ pre /\ w_face m wv = Some g).

(** [const float sigma = .1f;] and [float min_dist_sum = 1e32f;]. *)
Definition sigma : float := Eval cbv in to_float32 0.1.
Definition min_dist_sum0 : float := Eval cbv in to_float32 1e32.

(** The inner loop over [j]: [dist_sum += 1.0f - dot(normals[i], normals[j])]
    on a [float] accumulator. *)
Definition fvm_dist_sum (normals : list Vec3d) (i : nat) : float :=
  fold_left
    (fun dist_sum nj => to_float32 (dist_sum + (1 - dot (normals !!! i) nj))%float)
    normals 0%float.

(** The body of the loop over [i]; the state is
    [(normals, min_dist_sum, median)].  [normals[j]] for [j > i] still holds
    the value the vector was constructed with. *)
Definition fvm_median_step (m : Manifold) (nbrs : list FaceID)
  (st : list Vec3d * float * Z) (i : nat) : list Vec3d * float * Z :=
  let normals := <[i := normal m (nbrs !!! i)]> (fst (fst st)) in
  let dist_sum := fvm_dist_sum normals i in
  if (dist_sum <? snd (fst st))%float then (normals, dist_sum, Z.of_nat i)
  else (normals, snd (fst st), snd st).

(** [float w = exp((dot(median_norm, normals[i])-1)/sigma); if(w<1e-2) w = 0;]. *)
Definition fvm_weight (median_norm n : Vec3d) : float :=
  let w := to_float32 (c_exp ((dot median_norm n - 1) / sigma))%float in
  if (w <? 1e-2)%float then 0%float else w.

(** The second loop: [avg_norm += w*normals[i]]. *)
Definition fvm_average (median_norm : Vec3d) (normals : list Vec3d) : Vec3d :=
  fold_left (fun avg_norm n => vadd avg_norm (smul (fvm_weight median_norm n) n))
    normals (Vec3d_of 0).

(** [fvm_filtered_normal] from the neighbourhood on. *)
Definition fvm_filter (m : Manifold) (nbrs : list FaceID) : result Vec3d :=
  let st := fold_left (fvm_median_step m nbrs) (seq 0 (length nbrs))
              (replicate (length nbrs) Vec3d_default, min_dist_sum0, (-1)%Z) in
  let normals := fst (fst st) in
  let median := snd st in
  if (median =? -1)%Z then Fault AssertionFailed
  else
    let median_norm := normals !!! Z.to_nat median in
    Ok (normalize (fvm_average median_norm normals)).

Definition fvm_filtered_normal (m : Manifold) (f : FaceID) : result Vec3d :=
  fvm_filter m (face_neighbourhood m f []).

(** The weight [area(m, nbr)* w_a * w_s] of one neighbour. *)
Definition bilateral_weight (m : Manifold) (p0 n0 : Vec3d) (avg_len : float)
  (nbr : FaceID) : float :=
  let n := normal m nbr in
  let p := centre m nbr in
  let w_a := c_exp (- c_acos (std_max (-1) (std_min 1 (dot n n0))) / (M_PI / 32))%float in
  let w_s := c_exp (- length3 (vsub p p0) / avg_len)%float in
  (area m nbr * w_a * w_s)%float.

Definition bilateral_filtered_normal (m : Manifold) (f : FaceID) (avg_len : float)
  : Vec3d :=
  let nbrs := face_neighbourhood m f [] in
  let p0 := centre m f in
  let n0 := normal m f in
  normalize
    (fold_left
       (fun fn nbr => vadd fn (smul (bilateral_weight m p0 n0 avg_len nbr) (normal m nbr)))
       nbrs (Vec3d_of 0)).

End NormalFilter.

(* ===================================================================== *)
(** * 6. Anisotropic smoothing                                            *)
(* ===================================================================== *)

(** What a run of [anisotropic_smooth] does, in order: [AvgLen a] when the
    half-edge lengths have been summed and halved (lines 212-215), and
    [Outer iter bandwidth threshold] for each pass of the outer loop, with the
    [avg_len] it hands to the normal filter and the threshold it stops the
    relaxation at. *)
Inductive event : Set :=
  | AvgLen (avg_len : float)
  | Outer (iter : Z) (bandwidth threshold : float).

(** How often the average was computed, and how many passes the outer loop
    made, are the numbers of events of each kind. *)
Definition is_AvgLen (e : event) : bool :=
  match e with AvgLen _ => true | Outer _ _ _ => false end.
Definition is_Outer (e : event) : bool :=
  match e with AvgLen _ => false | Outer _ _ _ => true end.

Section Anisotropic.
Context `{Collaborators}.

(** Lines 212-215. *)
Definition average_edge_length (m : Manifold) : float :=
  (fold_left (fun avg_len hid => avg_len + edge_length m hid) (halfedges m) 0 / 2)%float.

(** Lines 222-224. *)
Definition filter_face (nsm : NormalSmoothMethod) (avg_len : float) (m : Manifold)
  (filtered_norms : gmap nat Vec3d) (f : FaceID) : result (gmap nat Vec3d) :=
  n <-- match nsm with
        | BILATERAL_NORMAL_SMOOTH => Ok (bilateral_filtered_normal m f avg_len)
        | FVM_NORMAL_SMOOTH => fvm_filtered_normal m f
        end ;;
  Ok (<[f := n]> filtered_norms).

(** [m.pos(v) + 0.5 * n * dot(n, dir)] for the half-edge [hid] of face [f]. *)
Definition contribution (filtered_norms : gmap nat Vec3d) (m : Manifold)
  (hid : HalfEdgeID) (f : FaceID) : Vec3d :=
  let v := w_vertex m hid in
  let dir := vsub (pos m (w_vertex m (w_opp m hid))) (pos m v) in
  let n := filtered_norms !!! f in
  vadd (pos m v) (vscale (smul 0.5 n) (dot n dir)).

(** [count[v]]: the vector is constructed with 0 everywhere. *)
Definition count_at (count : gmap nat Z) (v : VertexID) : Z :=
  default 0%Z (count !! v).

(** The body of the half-edge loop (lines 233-242); the state is
    [(vertex_positions, count)]. *)
Definition relax_accumulate (filtered_norms : gmap nat Vec3d) (m : Manifold)
  (st : Positions * gmap nat Z) (hid : HalfEdgeID) : Positions * gmap nat Z :=
  match w_face m hid with
  | Some f =>
      let v := w_vertex m hid in
      (<[v := vadd (fst st !!! v) (contribution filtered_norms m hid f)]> (fst st),
       <[v := (count_at (snd st) v + 1)%Z]> (snd st))
  | None => st
  end.

(** [vertex_positions[v] / double(count[v])]. *)
Definition relax_npos (st : Positions * gmap nat Z) (v : VertexID) : Vec3d :=
  vdiv (fst st !!! v) (double_of_int (count_at (snd st) v)).

(** The body of the vertex loop (lines 248-253); the state is [(m, max_move)]. *)
Definition relax_write (acc : Positions * gmap nat Z) (st : Manifold * float)
  (v : VertexID) : Manifold * float :=
  let npos := relax_npos acc v in
  let move := sqr_length (vsub npos (pos (fst st) v)) in
  (set_pos (fst st) v npos,
   if (snd st <? move)%float then move else snd st).

(** One sub-iteration: the accumulators after the half-edge loop, the mesh
    after the vertex loop, and [max_move]. *)
Definition relax_sub_iteration (filtered_norms : gmap nat Vec3d)
  (m : Manifold) (acc : Positions * gmap nat Z)
  : Manifold * (Positions * gmap nat Z) * float :=
  let acc' := fold_left (relax_accumulate filtered_norms m) (halfedges m) acc in
  let w := fold_left (relax_write acc') (vertices m) (m, 0%float) in
  (fst w, acc', snd w).

(** The loop of lines 229-260, entered with [sub_iters] passes left. *)
Fixpoint relax_loop (sub_iters : nat) (threshold : float)
  (filtered_norms : gmap nat Vec3d) (m : Manifold) (acc : Positions * gmap nat Z)
  : Manifold :=
  match sub_iters with
  | O => m
  | S k =>
      let r := relax_sub_iteration filtered_norms m acc in
      if (snd r <? threshold)%float then fst (fst r)
      else relax_loop k threshold filtered_norms (fst (fst r)) (snd (fst r))
  end.

(** Lines 227-260: the accumulators are constructed here, zero everywhere. *)
Definition relaxation (threshold : float) (filtered_norms : gmap nat Vec3d)
  (m : Manifold) : Manifold :=
  relax_loop 100 threshold filtered_norms m (∅, ∅).

(** The mesh and the accumulators after [s] sub-iterations of the loop,
    none of which has left it. *)
Fixpoint relax_after (filtered_norms : gmap nat Vec3d) (m : Manifold) (s : nat)
  : Manifold * (Positions * gmap nat Z) :=
  match s with
  | O => (m, (∅, ∅))
  | S s' =>
      let st := relax_after filtered_norms m s' in
      fst (relax_sub_iteration filtered_norms (fst st) (snd st))
  end.

(** [max_move] at the end of the sub-iteration [sub_iter], none before it
    having left the loop. *)
Definition relax_max_move (filtered_norms : gmap nat Vec3d) (m : Manifold)
  (sub_iter : nat) : float :=
  snd (relax_sub_iteration filtered_norms
         (fst (relax_after filtered_norms m sub_iter))
         (snd (relax_after filtered_norms m sub_iter))).

(** The contributions one half-edge loop adds at vertex [v], in the order
    of [m.halfedges()]: one for each half-edge that has a face and points
    to [v]. *)
Definition contributions (filtered_norms : gmap nat Vec3d) (m : Manifold)
  (v : VertexID) : list Vec3d :=
  omap (fun hid =>
          match w_face m hid with
          | Some f =>
              if decide (w_vertex m hid = v)
              then Some (contribution filtered_norms m hid f) else None
          | None => None
          end) (halfedges m).

(** All the contributions added at [v] by the first [s] sub-iterations. *)
Fixpoint contributions_upto (filtered_norms : gmap nat Vec3d) (m : Manifold)
  (v : VertexID) (s : nat) : list Vec3d :=
  match s with
  | O => []
  | S s' =>
      contributions_upto filtered_norms m v s'
      ++ contributions filtered_norms (fst (relax_after filtered_norms m s')) v
  end.

(** No half-edge of a face points to [v]: the half-edge loop adds nothing at
    [v], and [count[v]] stays 0. *)
Definition uncounted (m : Manifold) (v : VertexID) : Prop :=
  forall hid, hid ∈ halfedges m -> w_vertex m hid = v -> w_face m hid = None.

(** The mean of a list of vectors: their sum over their number. *)
Definition average (l : list Vec3d) : Vec3d :=
  vdiv (vsum l) (double_of_int (Z.of_nat (length l))).

(** One pass of the outer loop; the state is the mesh and the events so far. *)
Definition anisotropic_outer (nsm : NormalSmoothMethod) (avg_len : float)
  (st : Manifold * list event) (iter : Z) : result (Manifold * list event) :=
  let m := fst st in
  filtered_norms <-- for_each (filter_face nsm avg_len m) (faces m) ∅ ;;
  let threshold := sqr (1e-8 * avg_len) in
  Ok (relaxation threshold filtered_norms m,
      snd st ++ [Outer iter avg_len threshold]).

Definition anisotropic_smooth_run (m : Manifold) (max_iter : Z)
  (nsm : NormalSmoothMethod) : result (Manifold * list event) :=
  let avg_len := average_edge_length m in
  for_each (anisotropic_outer nsm avg_len) (seqZ 0 max_iter) (m, [AvgLen avg_len]).

Definition anisotropic_smooth (m : Manifold) (max_iter : Z)
  (nsm : NormalSmoothMethod) : result Manifold :=
  r <-- anisotropic_smooth_run m max_iter nsm ;; Ok (fst r).

End Anisotropic.

(* ===================================================================== *)
(** * 7. Tangential area-weighted Laplacian                               *)
(* ===================================================================== *)

Section TAL.
Context `{Collaborators}.

(** Lines 272-275: [vertex_areas] is a vector of [float]. *)
Definition TAL_vertex_area (m : Manifold) (vertex_areas : gmap nat float)
  (vid : VertexID) : gmap nat float :=
  fold_left
    (fun va w =>
       match w_face m w with
       | Some f => <[vid := to_float32 (va !!! vid + area m f)%float]> va
       | None => va
       end)
    (ring_ccw m vid) (<[vid := 0%float]> vertex_areas).

(** The sum [vertex_areas[vid]] ends as: the areas of the faces around
    [vid], added in single precision. *)
Definition ring_area (m : Manifold) (vid : VertexID) : float :=
  fold_left
    (fun a w =>
       match w_face m w with
       | Some f => to_float32 (a + area m f)%float
       | None => a
       end)
    (ring_ccw m vid) 0%float.

(** Lines 284-301, a boundary vertex; the loop state is
    [(angle_sum, laplacian, weight_sum)]. *)
Definition TAL_boundary_step (m : Manifold) (vid : VertexID)
  (st : float * Vec3d * float) (w : HalfEdgeID) : float * Vec3d * float :=
  let angle_sum :=
    match w_face m w with
    | Some _ =>
        let vec_a := normalize (vsub (pos m (w_vertex m w)) (pos m vid)) in
        let vec_b := normalize (vsub (pos m (w_vertex m (w_ccw m w))) (pos m vid)) in
        (fst (fst st) + c_acos (std_max (-1) (std_min 1 (dot vec_a vec_b))))%float
    | None => fst (fst st)
    end in
  if boundary m (w_vertex m w)
  then (angle_sum,
        vadd (snd (fst st)) (vsub (pos m (w_vertex m w)) (pos m vid)),
        (snd st + 1)%float)
  else (angle_sum, snd (fst st), snd st).

Definition TAL_boundary_laplacian (m : Manifold) (vid : VertexID) : Vec3d :=
  let st := fold_left (TAL_boundary_step m vid) (ring_ccw m vid)
              (0%float, Vec3d_of 0, 0%float) in
  let angle_sum := fst (fst st) in
  vscale (vdiv (snd (fst st)) (snd st))
    (c_exp (-3 * sqr (std_max 0 (M_PI - angle_sum))))%float.

(** Lines 305-312, an interior vertex; the loop state is
    [(laplacian, weight_sum)]. *)
Definition TAL_interior_step (m : Manifold) (vertex_areas : gmap nat float)
  (vid : VertexID) (st : Vec3d * float) (w : HalfEdgeID) : Vec3d * float :=
  let weight := vertex_areas !!! w_vertex m w in
  let l := vsub (pos m (w_vertex m w)) (pos m vid) in
  (vadd (fst st) (smul weight l), (snd st + weight)%float).

Definition TAL_interior_laplacian (m : Manifold) (vertex_areas : gmap nat float)
  (vid : VertexID) : Vec3d :=
  let st := fold_left (TAL_interior_step m vertex_areas vid) (ring_ccw m vid)
              (Vec3d_of 0, 0%float) in
  vdiv (fst st) (snd st).

Definition TAL_laplacian (m : Manifold) (vertex_areas : gmap nat float)
  (vid : VertexID) : Vec3d :=
  if boundary m vid then TAL_boundary_laplacian m vid
  else TAL_interior_laplacian m vertex_areas vid.

(** One pass of the loop of [TAL_smoothing]. *)
Definition TAL_iteration (w : float) (m : Manifold) : Manifold :=
  let vertex_areas := fold_left (TAL_vertex_area m) (vertices m) ∅ in
  let laplacians : gmap nat Vec3d :=
    fold_left (fun ls vid => <[vid := TAL_laplacian m vertex_areas vid]> ls)
      (vertices m) ∅ in
  fold_left
    (fun m' vid => set_pos m' vid (vadd (pos m' vid) (smul w (laplacians !!! vid))))
    (vertices m) m.

Definition TAL_smoothing (m : Manifold) (w : float) (max_iter : Z) : Manifold :=
  fold_left (fun m' _ => TAL_iteration w m') (seqZ 0 max_iter) m.

End TAL.

(* ===================================================================== *)
(** * 8. Sample meshes                                                    *)
(* ===================================================================== *)

(** Closed inputs for the examples below.  A triangle mesh on the vertices
    [0 .. n-1] is given by its faces; the directed edge [a -> b] is the
    half-edge [a * n + b], a boundary half-edge being the opposite of a face
    half-edge that lies in no face itself. *)
Module Sample.

Section Build.
Variable n : nat.
Variable tris : list (nat * nat * nat).

Definition he (a b : nat) : nat := a * n + b.
Definition src (h : nat) : nat := h / n.
Definition dst (h : nat) : nat := h mod n.

(** [(f, a, b, c)]: face [f] has the half-edge [a -> b], followed by [b -> c]. *)
Definition corners : list (nat * nat * nat * nat) :=
  concat (imap (fun f t =>
                  match t with
                  | (a, b, c) => [(f, a, b, c); (f, b, c, a); (f, c, a, b)]
                  end) tris).

Definition corner_of (a b : nat) : option (nat * nat * nat * nat) :=
  List.find (fun k => match k with (_, a', b', _) => (a' =? a) && (b' =? b) end)
    corners.

Definition in_face (a b : nat) : bool :=
  match corner_of a b with Some _ => true | None => false end.

Definition face_of (h : nat) : option nat :=
  match corner_of (src h) (dst h) with
  | Some (f, _, _, _) => Some f
  | None => None
  end.

Definition all_halfedges : list nat :=
  concat (map (fun k => match k with
                        | (_, a, b, _) =>
                            he a b :: (if in_face b a then [] else [he b a])
                        end) corners).

Definition next_of (h : nat) : nat :=
  match corner_of (src h) (dst h) with
  | Some (_, _, b, c) => he b c
  | None =>
      (* along the boundary: the half-edge out of [dst h] that lies in no face *)
      match List.find (fun k => match k with
                                | (_, c, b, _) => (b =? dst h) && negb (in_face b c)
                                end) corners with
      | Some (_, c, b, _) => he b c
      | None => h
      end
  end.

Definition prev_of (h : nat) : nat :=
  match corner_of (src h) (dst h) with
  | Some (_, a, b, c) => he c a
  | None =>
      match List.find (fun k => match k with
                                | (_, a, c, _) => (a =? src h) && negb (in_face c a)
                                end) corners with
      | Some (_, a, c, _) => he c a
      | None => h
      end
  end.

Definition opp_of (h : nat) : nat := he (dst h) (src h).
Definition ccw_of (h : nat) : nat := opp_of (prev_of h).
Definition cw_of (h : nat) : nat := next_of (opp_of h).

Definition out_edges (v : nat) : list nat :=
  List.filter (fun h => src h =? v) all_halfedges.

Definition on_boundary (v : nat) : bool :=
  existsb (fun h => match face_of h with None => true | Some _ => false end)
    (out_edges v).

(** [m.walker(v)]: the boundary half-edge out of a boundary vertex.  At a
    vertex without half-edges the walker holds a half-edge that is none of
    the mesh: it stands here as [he v v], which lies in no face and which
    every accessor sends to itself. *)
Definition out_of (v : nat) : nat :=
  match List.find (fun h => match face_of h with None => true | Some _ => false end)
          (out_edges v) with
  | Some h => h
  | None => hd (he v v) (out_edges v)
  end.

Fixpoint orbit (step : nat -> nat) (k : nat) (h : nat) : list nat :=
  match k with
  | O => []
  | S k' => h :: orbit step k' (step h)
  end.

(** [full_circle()] is false on a fresh walker: a circulation visits its
    first walker before it can stop, so no ring is empty. *)
Definition ring_length (v : nat) : nat := Nat.max 1 (length (out_edges v)).

Definition mesh (pts : list Vec3d) : Manifold :=
  mkManifold (seq 0 n) (seq 0 (length tris)) all_halfedges
    on_boundary dst face_of next_of prev_of opp_of ccw_of
    (fun v => orbit ccw_of (ring_length v) (out_of v))
    (fun v => orbit cw_of (ring_length v) (out_of v))
    (fun f => match tris !! f with
              | Some (a, b, c) => orbit prev_of 3 (he a b)
              | None => []
              end)
    (list_to_map (imap (fun i p => (i, p)) pts)).

End Build.

Definition pt (x y z : float) : Vec3d := mkVec3d x y z.

(** A single triangle: three vertices, all on the boundary. *)
Definition triangle : Manifold :=
  mesh 3 [(0, 1, 2)] [pt 0 0 0; pt 1 0 0; pt 0 1 0].

(** A tetrahedron: four vertices, none on a boundary. *)
Definition tetrahedron : Manifold :=
  mesh 4 [(0, 1, 2); (0, 3, 1); (1, 3, 2); (0, 2, 3)]
    [pt 0 0 0; pt 1 0 0; pt 0 1 0; pt 0 0 1].

(** The same tetrahedron with its four vertices at one point: every face has
    zero area. *)
Definition collapsed_tetrahedron : Manifold :=
  mesh 4 [(0, 1, 2); (0, 3, 1); (1, 3, 2); (0, 2, 3)]
    [pt 1 2 3; pt 1 2 3; pt 1 2 3; pt 1 2 3].

(** The tetrahedron with every coordinate NaN. *)
Definition nan_tetrahedron : Manifold :=
  mesh 4 [(0, 1, 2); (0, 3, 1); (1, 3, 2); (0, 2, 3)]
    [pt nan nan nan; pt nan nan nan; pt nan nan nan; pt nan nan nan].

(** A triangle and a fourth vertex that no edge touches.  What smooth.cpp
    does when it circulates about such a vertex is not defined by the mesh
    library; the examples on this mesh circulate about the vertices of the
    triangle only. *)
Definition lone_vertex : Manifold :=
  mesh 4 [(0, 1, 2)] [pt 0 0 0; pt 1 0 0; pt 0 1 0; pt 5 5 5].

(** A 3 x 3 grid of vertices, eight triangles; vertex 4 is the only interior
    vertex and is lifted out of the plane. *)
Definition grid : Manifold :=
  mesh 9 [(0, 1, 4); (0, 4, 3); (1, 2, 5); (1, 5, 4);
          (3, 4, 7); (3, 7, 6); (4, 5, 8); (4, 8, 7)]
    [pt 0 0 0; pt 1 0 0; pt 2 0 0;
     pt 0 1 0; pt 1 1 1; pt 2 1 0;
     pt 0 2 0; pt 1 2 0; pt 2 2 0].


(** The flat grid with vertex 5 moved to the middle of the edge from vertex 4
    to vertex 1: the triangle (1, 5, 4) has zero area. *)
Definition degenerate_grid : Manifold :=
  mesh 9 [(0, 1, 4); (0, 4, 3); (1, 2, 5); (1, 5, 4);
          (3, 4, 7); (3, 7, 6); (4, 5, 8); (4, 8, 7)]
    [pt 0 0 0; pt 1 0 0; pt 2 0 0;
     pt 0 1 0; pt 1 1 0; pt 1 0.5 0;
     pt 0 2 0; pt 1 2 0; pt 2 2 0].

(** A grid with vertex 8 infinitely far away, and the triangles (1, 5, 4)
    and (3, 4, 7) flattened onto the lines through vertex 4. *)
Definition infinite_grid : Manifold :=
  mesh 9 [(0, 1, 4); (0, 4, 3); (1, 2, 5); (1, 5, 4);
          (3, 4, 7); (3, 7, 6); (4, 5, 8); (4, 8, 7)]
    [pt 0 0 0; pt 1 0 0; pt 2 0 0;
     pt 0 1 0; pt 1 1 0; pt 1 2 0;
     pt 0 2 0; pt 2 1 0; pt infinity 2 0].

(** A bipyramid over a polygon of [k] vertices: the polygon's vertices are
    [0 .. k-1], the two apexes [k] and [k+1].  A closed mesh: no vertex is
    on a boundary. *)
Definition bipyramid_tris (k : nat) : list (nat * nat * nat) :=
  flat_map (fun i => [(i, (i + 1) mod k, k); ((i + 1) mod k, i, k + 1)]) (seq 0 k).

Definition bipyramid (k : nat) : Manifold :=
  mesh (k + 2) (bipyramid_tris k)
    (map (fun i => if i <? k then pt (double_of_int (Z.of_nat i)) (double_of_int (Z.of_nat (i * i))) 0
                   else if i =? k then pt 0 0 1 else pt 0 0 (-1))
       (seq 0 (k + 2))).

(** Filtered normals for the eight faces of the grid: straight up. *)
Definition up_normals : gmap nat Vec3d :=
  list_to_map (map (fun f => (f, mkVec3d 0 0 1)) (seq 0 8)).

(** ** Stand-ins for the collaborators

    Used only to run the embedding on the meshes above.  The C library is
    tabulated at the arguments these runs reach (the values glibc returns),
    NaN elsewhere; the geometric primitives are the textbook ones for a
    triangle mesh. *)

Fixpoint tabulated (t : list (float * float)) (x : float) : float :=
  match t with
  | [] => nan
  | (a, r) :: t' => if (a =? x)%float then r else tabulated t' x
  end.

Definition sin_table : list (float * float) :=
  [ (0x0p+0, 0x0p+0);
    (0x1.94441f8f72614p-3, 0x1.91a5561517624p-3);
    (0x1.2d0ead6066395p-1, 0x1.1c01aa03be895p-1);
    (0x1.921fb54442d19p-1, 0x1.6a09e667f3bcdp-1);
    (0x1.921fb54442d18p+0, 0x1p+0);
    (0x1.921fb54442d19p+0, 0x1p+0);
    (0x1.145385fa3af71p+1, 0x1.aa027f059dce2p-1);
    (0x1.921fb54442d18p+1, 0x1.1a62633145c07p-53);
    (0x1.f6a7a2955385ep+1, -0x1.6a09e667f3bccp-1);
    (0x1.921fb54442d18p+2, -0x1.1a62633145c07p-52) ]%float.

Definition acos_table : list (float * float) :=
  [ (-0x1p+0, 0x1.921fb54442d18p+1);
    (0x0p+0, 0x1.921fb54442d18p+0);
    (0x1.6a09e667f3bccp-1, 0x1.921fb54442d19p-1);
    (0x1.aa027f059dce1p-1, 0x1.2d0ead6066395p-1);
    (0x1.f60eab9a5d3a2p-1, 0x1.94441f8f72614p-3);
    (0x1p+0, 0x0p+0) ]%float.

Definition exp_table : list (float * float) :=
  [ (0x0p+0, 0x1p+0);
    (0x1.3fffffb000001p-49, 0x1.000000000000ap+0) ]%float.

(** [cond_normalize]: the vector over its length when that is positive. *)
Definition sample_cond_normalize (v : Vec3d) : Vec3d :=
  if (0 <? sqr_length v)%float then vdiv v (PrimFloat.sqrt (sqr_length v)) else v.

(** The uniform Laplacian: the mean of the one-ring minus the position. *)
Definition sample_laplacian (m : Manifold) (v : nat) : Vec3d :=
  let ring := ring_ccw m v in
  let p := fold_left (fun p h => vadd p (pos m (w_vertex m h))) ring (Vec3d_of 0) in
  vsub (vdiv p (double_of_int (Z.of_nat (length ring)))) (pos m v).

Definition cross (a b : Vec3d) : Vec3d :=
  mkVec3d (vy a * vz b - vz a * vy b) (vz a * vx b - vx a * vz b)
          (vx a * vy b - vy a * vx b)%float.

(** The corners of a triangle, and the cross product of two of its edges. *)
Definition face_points (m : Manifold) (f : nat) : list Vec3d :=
  rev (map (fun h => pos m (w_vertex m h)) (face_cw m f)).

Definition face_cross (m : Manifold) (f : nat) : Vec3d :=
  match face_points m f with
  | [a; b; c] => cross (vsub b a) (vsub c a)
  | _ => Vec3d_of 0
  end.

Definition sample_normal (m : Manifold) (f : nat) : Vec3d :=
  let n := face_cross m f in
  if (0 <? sqr_length n)%float then normalize n else n.

Definition sample_centre (m : Manifold) (f : nat) : Vec3d :=
  vdiv (vsum (face_points m f))
       (double_of_int (Z.of_nat (length (face_points m f)))).

Definition sample_area (m : Manifold) (f : nat) : float :=
  (0.5 * length3 (face_cross m f))%float.

Definition sample_edge_length (m : Manifold) (h : nat) : float :=
  length3 (vsub (pos m (w_vertex m h)) (pos m (w_vertex m (w_opp m h)))).

Definition collaborators : Collaborators :=
  {| c_sin := tabulated sin_table;
     c_acos := tabulated acos_table;
     c_exp := tabulated exp_table;
     cond_normalize := sample_cond_normalize;
     Vec3d_default := Vec3d_of nan;
     laplacian := sample_laplacian;
     normal := sample_normal;
     centre := sample_centre;
     area := sample_area;
     edge_length := sample_edge_length |}.

(** The grid in the plane [x + y + 5 z = 0].  Each of its faces has the
    normal [tilted], the direction (1, 1, 5) scaled to unit length, for which
    [dot tilted tilted = 1] in binary64. *)
Definition tilted_grid : Manifold :=
  mesh 9 [(0, 1, 4); (0, 4, 3); (1, 2, 5); (1, 5, 4);
          (3, 4, 7); (3, 7, 6); (4, 5, 8); (4, 8, 7)]
    [pt 0 0 0; pt 5 0 (-1); pt 10 0 (-2);
     pt 0 5 (-1); pt 5 5 (-2); pt 10 5 (-3);
     pt 0 10 (-2); pt 5 10 (-3); pt 10 10 (-4)].

Definition tilted : Vec3d :=
  mkVec3d 0.19245008972987526 0.19245008972987526 0.9622504486493763.

(** The grid in the plane [x + y + z = 0].  Each of its faces has the
    normal [diagonal], the direction (1, 1, 1) divided by its length, for
    which [dot diagonal diagonal] is 1.0000000000000002 in binary64. *)
Definition diagonal_grid : Manifold :=
  mesh 9 [(0, 1, 4); (0, 4, 3); (1, 2, 5); (1, 5, 4);
          (3, 4, 7); (3, 7, 6); (4, 5, 8); (4, 8, 7)]
    [pt 0 0 0; pt 1 0 (-1); pt 2 0 (-2);
     pt 0 1 (-1); pt 1 1 (-2); pt 2 1 (-3);
     pt 0 2 (-2); pt 1 2 (-3); pt 2 2 (-4)].

Definition diagonal : Vec3d :=
  mkVec3d 0.5773502691896258 0.5773502691896258 0.5773502691896258.

End Sample.

(* ===================================================================== *)
(** * 9. Faulting loops                                                   *)
(* ===================================================================== *)

Lemma bind_Ok {A B} (r : result A) (k : A -> result B) b :
  bind r k = Ok b <-> exists a, r = Ok a /\ k a = Ok b.
Proof.
  destruct r as [a|f]; simpl; split.
  - intros Hk. exists a. done.
  - intros (a' & [= <-] & Hk). done.
  - discriminate.
  - intros (a' & [=] & _).
Qed.

Lemma bind_Fault {A B} (r : result A) (k : A -> result B) f :
  bind r k = Fault f <-> r = Fault f \/ exists a, r = Ok a /\ k a = Fault f.
Proof.
  destruct r as [a|f']; simpl; split.
  - intros Hk. right. exists a. done.
  - intros [[=]|(a' & [= <-] & Hk)]. done.
  - intros [= <-]. by left.
  - intros [[= <-]|(a' & [=] & _)]. done.
Qed.

(** An invariant of a faulting loop, indexed by the elements done so far. *)
Lemma for_each_invariant {A S : Type} (P : list A -> S -> Prop)
  (body : S -> A -> result S) (l : list A) (s s' : S) :
  P [] s ->
  (forall pre a t t', P pre t -> body t a = Ok t' -> P (pre ++ [a]) t') ->
  for_each body l s = Ok s' -> P l s'.
Proof.
  intros H0 Hstep.
  assert (G : forall post pre t, P pre t -> for_each body post t = Ok s' -> P (pre ++ post) s').
  { induction post as [|a post IH]; intros pre t Hp; simpl.
    - intros [= <-]. by rewrite app_nil_r.
    - intros (t' & Hb & Hrest)%bind_Ok.
      rewrite (cons_middle a pre post), app_assoc. eapply IH; eauto. }
  intros Hl. exact (G l [] s H0 Hl).
Qed.

(** A loop whose body never faults on the states it reaches returns. *)
Lemma for_each_returns {A S : Type} (P : list A -> S -> Prop)
  (body : S -> A -> result S) (l : list A) (s : S) :
  P [] s ->
  (forall pre a post t, l = pre ++ a :: post -> P pre t ->
     exists t', body t a = Ok t' /\ P (pre ++ [a]) t') ->
  exists s', for_each body l s = Ok s' /\ P l s'.
Proof.
  intros H0 Hstep.
  assert (G : forall post pre t, l = pre ++ post -> P pre t ->
                exists s', for_each body post t = Ok s' /\ P l s').
  { induction post as [|a post IH]; intros pre t Hl Hp; simpl.
    - exists t. split; [done|]. by rewrite Hl, app_nil_r.
    - destruct (Hstep pre a post t Hl Hp) as (t' & Hb & Hp').
      rewrite Hb. simpl. apply (IH (pre ++ [a])); [|done].
      by rewrite <- app_assoc. }
  exact (G l [] s eq_refl H0).
Qed.

(** A fault of the loop is a fault of its body. *)
Lemma for_each_fault {A S : Type} (body : S -> A -> result S) (l : list A)
  (s : S) (f : fault) :
  for_each body l s = Fault f -> exists t a, a ∈ l /\ body t a = Fault f.
Proof.
  revert s. induction l as [|a l IH]; intros s; simpl; [discriminate|].
  intros [Hb|(t' & Hb & Hrest)]%bind_Fault.
  - exists s, a. split; [left|done].
  - destruct (IH _ Hrest) as (t & b & Hin & Hf). exists t, b. split; [by right|done].
Qed.

(* ===================================================================== *)
(** * 10. The batch scheduler                                             *)
(* ===================================================================== *)

Lemma accepted_app m l1 l2 : accepted m (l1 ++ l2) = accepted m l1 ++ accepted m l2.
Proof. apply List.filter_app. Qed.

Lemma elem_of_accepted m l v : v ∈ accepted m l <-> v ∈ l /\ boundary m v = false.
Proof.
  unfold accepted. rewrite !list_elem_of_In, List.filter_In, negb_true_iff. done.
Qed.

Lemma length_accepted m l : length (accepted m l) <= length l.
Proof. apply List.filter_length_le. Qed.

Lemma push_back_length ids i v : length (push_back ids i v) = length ids.
Proof. unfold push_back. apply length_alter. Qed.

Lemma push_back_concat ids i v :
  i < length ids -> concat (push_back ids i v) ≡ₚ concat ids ++ [v].
Proof.
  unfold push_back. revert i. induction ids as [|b ids IH]; intros i Hi; simpl in *; [lia|].
  destruct i as [|i]; simpl.
  - rewrite <- !app_assoc. apply Permutation_app_head. apply Permutation_app_comm.
  - change (list_alter ?f i ids) with (alter f i ids).
    rewrite IH by lia. by rewrite app_assoc.
Qed.

Lemma batch_index_Ok bs cnt i :
  batch_index bs cnt = Ok i -> (0 <= i < CORES)%Z.
Proof.
  unfold batch_index. destruct (bs =? 0)%Z; [discriminate|].
  intros [= <-]. apply Z.mod_pos_bound. reflexivity.
Qed.

Lemma batch_inv_init m : batch_inv m [] (0%Z, replicate (Z.to_nat CORES) []).
Proof. unfold batch_inv. simpl. split; [done|]. split; [|done]. reflexivity. Qed.

Lemma batch_step_inv m bs pre v st st' :
  batch_inv m pre st -> batch_step m bs st v = Ok st' -> batch_inv m (pre ++ [v]) st'.
Proof.
  intros (Hlen & Hperm & Hcnt). unfold batch_step, batch_inv.
  rewrite accepted_app. simpl. destruct (boundary m v); simpl.
  - intros [= <-]. rewrite app_nil_r. done.
  - intros (c & Hc & (i & Hi & [= <-])%bind_Ok)%bind_Ok. simpl.
    unfold post_increment in Hc. destruct (int_in_range _); [|discriminate].
    injection Hc as <-. simpl in *. apply batch_index_Ok in Hi.
    rewrite push_back_length. split; [done|]. split.
    + rewrite push_back_concat by (rewrite Hlen; unfold CORES in *; lia).
      by rewrite Hperm.
    + rewrite length_app. simpl. lia.
Qed.

Lemma batch_vertices_partition m batches :
  batch_vertices m = Ok batches ->
  length batches = Z.to_nat CORES /\ concat batches ≡ₚ accepted m (vertices m).
Proof.
  unfold batch_vertices. intros (st & Hloop & [= <-])%bind_Ok.
  apply (for_each_invariant (batch_inv m)) in Hloop.
  - destruct Hloop as (? & ? & ?). done.
  - apply batch_inv_init.
  - intros. by eapply batch_step_inv.
Qed.

Lemma batch_size_zero m : batch_size m = 0%Z <-> (no_vertices m < CORES)%Z.
Proof.
  unfold batch_size, no_vertices, CORES.
  split; intros Hd.
  - apply Z.div_small_iff in Hd; lia.
  - apply Z.div_small. lia.
Qed.

Lemma batch_vertices_returns m :
  (CORES <= no_vertices m)%Z -> (no_vertices m <= INT_MAX)%Z ->
  exists batches, batch_vertices m = Ok batches.
Proof.
  intros Hmin Hmax. unfold batch_vertices.
  destruct (for_each_returns (batch_inv m) (batch_step m (batch_size m)) (vertices m)
              (0%Z, replicate (Z.to_nat CORES) [])) as (st & Hst & _).
  - apply batch_inv_init.
  - intros pre v post t Hl Hinv.
    assert (Hstep : exists t', batch_step m (batch_size m) t v = Ok t').
    { unfold batch_step. destruct (boundary m v) eqn:Hb; [eauto|].
      destruct Hinv as (_ & _ & Hcnt).
      assert (Hle : (fst t + 1 <= INT_MAX)%Z).
      { pose proof (length_accepted m pre) as Hacc.
        unfold no_vertices in Hmax. rewrite Hl, length_app in Hmax. simpl in Hmax. lia. }
      unfold post_increment, int_in_range.
      assert (0 <= fst t)%Z by lia.
      destruct (INT_MIN <=? fst t + 1)%Z eqn:E1; [|unfold INT_MIN in *; lia].
      destruct (fst t + 1 <=? INT_MAX)%Z eqn:E2; [|lia].
      simpl. unfold batch_index.
      destruct (batch_size m =? 0)%Z eqn:E3; [|simpl; eauto].
      apply Z.eqb_eq, batch_size_zero in E3. lia. }
    destruct Hstep as (t' & Ht'). exists t'. split; [done|].
    by eapply batch_step_inv.
  - rewrite Hst. simpl. eauto.
Qed.

Lemma batch_vertices_no_division_by_zero m :
  (CORES <= no_vertices m)%Z -> batch_vertices m <> Fault DivisionByZero.
Proof.
  intros Hmin. unfold batch_vertices.
  intros [Hf|(a & _ & [=])]%bind_Fault.
  apply for_each_fault in Hf as (t & v & _ & Hf).
  unfold batch_step in Hf. destruct (boundary m v); [discriminate|].
  apply bind_Fault in Hf as [Hf|(c & _ & Hf)].
  - unfold post_increment in Hf. destruct (int_in_range _); discriminate.
  - apply bind_Fault in Hf as [Hf|(i & _ & [=])].
    unfold batch_index in Hf. destruct (batch_size m =? 0)%Z eqn:E; [|discriminate].
    apply Z.eqb_eq, batch_size_zero in E. lia.
Qed.

Lemma batch_loop_divides_by_zero m l ids :
  (exists v, v ∈ l /\ boundary m v = false) ->
  for_each (batch_step m 0) l (0%Z, ids) = Fault DivisionByZero.
Proof.
  induction l as [|a l IH]; intros (v & Hin & Hb).
  - by apply elem_of_nil in Hin.
  - simpl. unfold batch_step at 1. destruct (boundary m a) eqn:Ha; simpl.
    + apply IH. exists v. split; [|done].
      apply elem_of_cons in Hin as [->|]; [congruence|done].
    + reflexivity.
Qed.

Lemma batch_vertices_divides_by_zero m :
  (no_vertices m < CORES)%Z -> (exists v, v ∈ vertices m /\ boundary m v = false) ->
  batch_vertices m = Fault DivisionByZero.
Proof.
  intros Hsmall%batch_size_zero Hv. unfold batch_vertices.
  rewrite Hsmall, batch_loop_divides_by_zero; done.
Qed.

(** A small mesh that accepts no vertex never evaluates the division. *)
Example batch_vertices_triangle :
  batch_size Sample.triangle = 0%Z /\
  batch_vertices Sample.triangle = Ok (replicate 8 []).
Proof. split; reflexivity. Qed.

Lemma elem_of_concat (ids : list (list nat)) (v : nat) :
  v ∈ concat ids <-> exists b, v ∈ b /\ b ∈ ids.
Proof.
  rewrite list_elem_of_In, List.in_concat. split.
  - intros (b & Hb & Hv). exists b. by rewrite !list_elem_of_In.
  - intros (b & Hv & Hb). exists b. by rewrite <- !list_elem_of_In.
Qed.

(** In a list of batches without a repeated vertex, a vertex lies in one
    batch only. *)
Lemma NoDup_concat_unique (ids : list (list nat)) (i j : nat) (b b' : list nat) (v : nat) :
  NoDup (concat ids) -> ids !! i = Some b -> ids !! j = Some b' ->
  v ∈ b -> v ∈ b' -> i = j.
Proof.
  revert i j. induction ids as [|c ids IH]; intros i j Hnd Hi Hj Hb Hb'.
  - discriminate.
  - simpl in Hnd. apply NoDup_app in Hnd as (_ & Hdisj & Hnd).
    destruct i as [|i], j as [|j]; simpl in *.
    + done.
    + injection Hi as ->. exfalso. apply (Hdisj v Hb).
      apply elem_of_concat. exists b'. split; [done|].
      by eapply list_elem_of_lookup_2.
    + injection Hj as ->. exfalso. apply (Hdisj v Hb').
      apply elem_of_concat. exists b. split; [done|].
      by eapply list_elem_of_lookup_2.
    + f_equal. by eapply IH.
Qed.

(** X1.  Whenever [batch_vertices] returns, its eight batches partition the
    non-boundary vertices: each lies in exactly one batch, once, and no
    other vertex lies in any. *)
Lemma batch_vertices_exactly_one (m : Manifold) (batches : list (list nat)) :
  NoDup (vertices m) -> batch_vertices m = Ok batches ->
  length batches = 8 /\
  NoDup (concat batches) /\
  (forall v, v ∈ vertices m -> boundary m v = false ->
     exists i b, batches !! i = Some b /\ v ∈ b /\
       forall j b', batches !! j = Some b' -> v ∈ b' -> j = i) /\
  (forall i b v, batches !! i = Some b -> v ∈ b ->
     v ∈ vertices m /\ boundary m v = false).
Proof.
  intros Hnd (Hlen & Hperm)%batch_vertices_partition.
  assert (Hnd' : NoDup (concat batches)).
  { rewrite Hperm. unfold accepted. apply NoDup_ListNoDup, List.NoDup_filter.
    by apply NoDup_ListNoDup. }
  split; [done|]. split; [done|]. split.
  - intros v Hv Hb.
    assert (Hin : v ∈ concat batches) by (rewrite Hperm; by apply elem_of_accepted).
    apply elem_of_concat in Hin as (b & Hvb & Hbin).
    apply list_elem_of_lookup in Hbin as (i & Hi).
    exists i, b. split; [done|]. split; [done|].
    intros j b' Hj Hvb'. by eapply NoDup_concat_unique.
  - intros i b v Hi Hvb. apply (elem_of_accepted m). rewrite <- Hperm.
    apply elem_of_concat. exists b. split; [done|].
    by eapply list_elem_of_lookup_2.
Qed.

(** C1 (the failing input).  On a tetrahedron, a closed mesh of four
    vertices, [batch_size] is [4 / 8 = 0] and the first vertex accepted
    divides by it: [batch_vertices] produces no batches. *)
Theorem batch_vertices_tetrahedron_faults :
  no_vertices Sample.tetrahedron = 4%Z /\
  Forall (fun v => boundary Sample.tetrahedron v = false) (vertices Sample.tetrahedron) /\
  batch_size Sample.tetrahedron = 0%Z /\
  batch_vertices Sample.tetrahedron = Fault DivisionByZero.
Proof.
  split; [reflexivity|]. split; [|split; reflexivity].
  repeat constructor.
Qed.

(** C10.  [batch_size] is [no_vertices / CORES] with [CORES = 8]; the index
    [(cnt / batch_size) % CORES] is defined exactly when the mesh has at
    least [CORES] vertices.  A mesh with at least 8 vertices never divides
    by zero in [batch_vertices]; on a mesh with fewer the division is by
    zero for every counter value, and [batch_vertices] runs into it as soon
    as it accepts a vertex. *)
Theorem batch_index_defined_iff_enough_vertices (m : Manifold) :
  CORES = 8%Z /\
  batch_size m = (no_vertices m / CORES)%Z /\
  (forall cnt, (exists i, batch_index (batch_size m) cnt = Ok i)
               <-> (CORES <= no_vertices m)%Z) /\
  ((CORES <= no_vertices m)%Z -> batch_vertices m <> Fault DivisionByZero) /\
  ((no_vertices m < CORES)%Z ->
     (forall cnt, batch_index (batch_size m) cnt = Fault DivisionByZero) /\
     ((exists v, v ∈ vertices m /\ boundary m v = false) ->
        batch_vertices m = Fault DivisionByZero)).
Proof.
  split; [reflexivity|]. split; [reflexivity|]. split; [|split].
  - intros cnt. unfold batch_index.
    destruct (batch_size m =? 0)%Z eqn:E.
    + apply Z.eqb_eq, batch_size_zero in E. split; [intros (i & [=])|lia].
    + apply Z.eqb_neq in E. rewrite batch_size_zero in E. split; [lia|eauto].
  - apply batch_vertices_no_division_by_zero.
  - intros Hsmall. split.
    + intros cnt. unfold batch_index.
      apply batch_size_zero in Hsmall. by rewrite Hsmall.
    + by apply batch_vertices_divides_by_zero.
Qed.

(** C10 at two meshes: the grid (9 vertices) and the tetrahedron (4). *)
Lemma batch_index_defined_iff_enough_vertices_witness :
  batch_vertices Sample.grid <> Fault DivisionByZero /\
  batch_vertices Sample.tetrahedron = Fault DivisionByZero.
Proof.
  split.
  - apply (batch_index_defined_iff_enough_vertices Sample.grid). vm_compute. discriminate.
  - apply (batch_index_defined_iff_enough_vertices Sample.tetrahedron).
    + reflexivity.
    + exists 0. split; [left|reflexivity].
Defined.

(* ===================================================================== *)
(** * 11. Laplacian and Taubin smoothing                                  *)
(* ===================================================================== *)

(** Writing [val v] at every vertex [v] of [l] that [skip] does not exclude. *)
Lemma fold_insert_lookup (skip : nat -> bool) (val : nat -> Vec3d) (l : list nat)
  (np : gmap nat Vec3d) (v : nat) :
  fold_left (fun np v => if skip v then np else <[v := val v]> np) l np !! v
  = if decide (v ∈ l /\ skip v = false) then Some (val v) else np !! v.
Proof.
  revert np. induction l as [|a l IH]; intros np.
  - simpl fold_left. destruct (decide (v ∈ [] /\ skip v = false)) as [[Hin _]|_]; [|done].
    by apply elem_of_nil in Hin.
  - simpl fold_left. rewrite IH.
    destruct (decide (v ∈ l /\ skip v = false)) as [[Hin Hs]|Hn].
    + rewrite decide_True; [done|]. split; [by right|done].
    + destruct (skip a) eqn:Ha.
      * destruct (decide (v ∈ a :: l /\ skip v = false)) as [[Hin Hs]|_]; [|done].
        apply elem_of_cons in Hin as [->|Hin]; [congruence|]. exfalso. by apply Hn.
      * destruct (decide (v = a)) as [->|Hne].
        -- rewrite lookup_insert_eq. rewrite decide_True; [done|]. split; [left|done].
        -- rewrite lookup_insert_ne by done.
           destruct (decide (v ∈ a :: l /\ skip v = false)) as [[Hin Hs]|_]; [|done].
           apply elem_of_cons in Hin as [->|Hin]; [done|].
           exfalso. by apply Hn.
Qed.

Lemma fold_left_invariant {A S : Type} (P : S -> Prop) (f : S -> A -> S)
  (l : list A) (s : S) :
  P s -> (forall t a, P t -> P (f t a)) -> P (fold_left f l s).
Proof.
  intros H0 Hstep. revert s H0. induction l as [|a l IH]; intros s H0; simpl; [done|].
  apply IH. by apply Hstep.
Qed.


Section SmoothingFacts.
Context `{Collaborators}.

Lemma taubin_step_parity (iter : Z) :
  taubin_step iter = if Z.even iter then 0.5%float else (-0.52)%float.
Proof.
  unfold taubin_step. rewrite Zmod_even. by destruct (Z.even iter).
Qed.

(** The scratch buffer after the vertex loop of a Taubin sub-iteration. *)
Lemma taubin_write_lookup (iter : Z) (m : Manifold) (new_pos : gmap nat Vec3d) (v : nat) :
  taubin_write iter m new_pos !! v
  = if decide (v ∈ vertices m /\ boundary m v = false)
    then Some (vadd (smul (taubin_step iter) (laplacian m v)) (pos m v))
    else new_pos !! v.
Proof.
  exact (fold_insert_lookup (boundary m)
           (fun v => vadd (smul (taubin_step iter) (laplacian m v)) (pos m v))
           (vertices m) new_pos v).
Qed.

Lemma laplacian_write_lookup (weight : float) (m : Manifold) (vids : list nat)
  (new_pos : gmap nat Vec3d) (v : nat) :
  laplacian_write weight m vids new_pos !! v
  = if decide (v ∈ vids) then Some (vadd (pos m v) (smul weight (laplacian m v)))
    else new_pos !! v.
Proof.
  unfold laplacian_write.
  rewrite (fold_insert_lookup (fun _ => false)
             (fun v => vadd (pos m v) (smul weight (laplacian m v))) vids new_pos v).
  destruct (decide (v ∈ vids)).
  - by rewrite decide_True.
  - rewrite decide_False; [done|]. by intros [? _].
Qed.

Lemma taubin_after_topology (m : Manifold) (n : nat) :
  vertices (fst (taubin_after m n)) = vertices m /\
  boundary (fst (taubin_after m n)) = boundary m.
Proof. induction n as [|n IH]; simpl; [done|]. exact IH. Qed.

Lemma taubin_smooth_after (m : Manifold) (n : nat) :
  fold_left taubin_iteration (seqZ 0 (Z.of_nat n)) (m, positions m) = taubin_after m n.
Proof.
  induction n as [|n IH]; [done|].
  rewrite seqZ_S, fold_left_app, IH. reflexivity.
Qed.


(** C4.  [taubin_smooth] runs exactly [2 * max_iter] sub-iterations.  The
    sub-iteration of index [n] writes [s * laplacian(m, v) + m.pos(v)] into
    [new_pos] at every non-boundary vertex [v], with [s = +0.5] when [n] is
    even and [s = -0.52] when it is odd, leaves the rest of [new_pos] as it
    was, and then swaps the two buffers: after it the position vector of the
    mesh is [new_pos], so that [m.pos(v)] is the value just written at every
    non-boundary vertex, and the scratch buffer is the position vector the
    mesh held before. *)
Theorem taubin_smooth_sub_iterations (m : Manifold) (max_iter : Z) :
  (0 <= max_iter <= 1073741823)%Z ->
  (exists n : nat,
     Z.of_nat n = (2 * max_iter)%Z /\
     taubin_smooth m max_iter = Ok (fst (taubin_after m n))) /\
  forall n : nat,
    let live := fst (taubin_after m n) in
    let scratch := snd (taubin_after m n) in
    let s := if Z.even (Z.of_nat n) then 0.5%float else (-0.52)%float in
    exists new_pos : gmap nat Vec3d,
      (forall v, v ∈ vertices m -> boundary m v = false ->
         new_pos !! v = Some (vadd (smul s (laplacian live v)) (pos live v))) /\
      (forall v, ~ (v ∈ vertices m /\ boundary m v = false) ->
         new_pos !! v = scratch !! v) /\
      taubin_after m (S n) = (with_positions live new_pos, positions live) /\
      positions (fst (taubin_after m (S n))) = new_pos /\
      snd (taubin_after m (S n)) = positions live /\
      (forall v, v ∈ vertices m -> boundary m v = false ->
         pos (fst (taubin_after m (S n))) v
         = vadd (smul s (laplacian live v)) (pos live v)) /\
      (forall v, ~ (v ∈ vertices m /\ boundary m v = false) ->
         positions (fst (taubin_after m (S n))) !! v = scratch !! v).
Proof.
  intros Hrange. split.
  - exists (Z.to_nat (2 * max_iter)). split; [lia|].
    unfold taubin_smooth, int_mul, int_in_range, INT_MIN, INT_MAX.
    destruct (-2147483648 <=? 2 * max_iter)%Z eqn:E1; [|lia].
    destruct (2 * max_iter <=? 2147483647)%Z eqn:E2; [|lia].
    simpl. f_equal. f_equal.
    rewrite <- (taubin_smooth_after m (Z.to_nat (2 * max_iter))).
    by rewrite Z2Nat.id by lia.
  - intros n live scratch s.
    destruct (taubin_after_topology m n) as [Hv Hb].
    assert (Hin : forall v, v ∈ vertices m -> boundary m v = false ->
              taubin_write (Z.of_nat n) live scratch !! v
              = Some (vadd (smul s (laplacian live v)) (pos live v))).
    { intros v Hin Hnb. rewrite taubin_write_lookup, taubin_step_parity.
      unfold live. rewrite Hv, Hb. by rewrite decide_True. }
    assert (Hout : forall v, ~ (v ∈ vertices m /\ boundary m v = false) ->
              taubin_write (Z.of_nat n) live scratch !! v = scratch !! v).
    { intros v Hn. rewrite taubin_write_lookup.
      unfold live. rewrite Hv, Hb. by rewrite decide_False. }
    assert (Hpos : positions (fst (taubin_after m (S n)))
                   = taubin_write (Z.of_nat n) live scratch) by reflexivity.
    exists (taubin_write (Z.of_nat n) live scratch).
    split; [exact Hin|]. split; [exact Hout|]. split; [reflexivity|].
    split; [exact Hpos|]. split; [reflexivity|]. split.
    + intros v Hvin Hnb. unfold pos at 1.
      by rewrite lookup_total_alt, Hpos, (Hin v Hvin Hnb).
    + intros v Hn. by rewrite Hpos, (Hout v Hn).
Qed.

(** The positions a boundary vertex holds in the mesh and in the scratch
    buffer stay those of the input throughout [taubin_smooth]. *)
Lemma taubin_after_boundary (m : Manifold) (n : nat) (v : nat) :
  boundary m v = true ->
  positions (fst (taubin_after m n)) !! v = positions m !! v /\
  snd (taubin_after m n) !! v = positions m !! v.
Proof.
  intros Hbv. induction n as [|n [IH1 IH2]]; [done|].
  destruct (taubin_after_topology m n) as [Hv Hb].
  simpl. split; [|done].
  rewrite taubin_write_lookup, Hb, decide_False; [done|].
  intros [_ Hf]. congruence.
Qed.

(** One iteration of [laplacian_smooth] writes inside the batches only. *)
Lemma for_each_vertex_parallel_lookup (weight : float) (m : Manifold)
  (batches : list (list nat)) (new_pos : gmap nat Vec3d) (no_threads : Z) (v : nat) :
  (forall b, b ∈ batches -> v ∉ b) ->
  for_each_vertex_parallel no_threads batches (laplacian_write weight m) new_pos !! v
  = new_pos !! v.
Proof.
  intros Hout. unfold for_each_vertex_parallel.
  apply (fold_left_invariant (fun np => np !! v = new_pos !! v)); [done|].
  intros np t Hnp. rewrite laplacian_write_lookup, decide_False; [done|].
  rewrite list_lookup_total_alt.
  destruct (batches !! Z.to_nat t) as [b|] eqn:Hb; simpl.
  - apply Hout. by eapply list_elem_of_lookup_2.
  - apply not_elem_of_nil.
Qed.

(** C6.  [laplacian_smooth] and [taubin_smooth] leave every boundary vertex
    where it was: whatever the weight and the iteration count, the mesh they
    return holds the input position at each boundary vertex.  Both return on
    every mesh they do not fault on: [taubin_smooth] whenever [2 * max_iter]
    is an [int], [laplacian_smooth] whenever the mesh has at least [CORES]
    vertices (and no more than [INT_MAX]). *)
Theorem smoothing_fixes_boundary (m : Manifold) (v : nat) :
  boundary m v = true ->
  (forall weight max_iter m',
     laplacian_smooth m weight max_iter = Ok m' -> pos m' v = pos m v) /\
  (forall max_iter m',
     taubin_smooth m max_iter = Ok m' -> pos m' v = pos m v) /\
  (forall weight max_iter,
     (CORES <= no_vertices m <= INT_MAX)%Z ->
     exists m', laplacian_smooth m weight max_iter = Ok m') /\
  (forall max_iter,
     (INT_MIN <= 2 * max_iter <= INT_MAX)%Z ->
     exists m', taubin_smooth m max_iter = Ok m').
Proof.
  intros Hbv. split; [|split; [|split]].
  - intros weight max_iter m'. unfold laplacian_smooth.
    intros (batches & Hbatches & [= <-])%bind_Ok.
    assert (Hout : forall b, b ∈ batches -> v ∉ b).
    { intros b Hb Hvb.
      apply batch_vertices_partition in Hbatches as [_ Hperm].
      assert (Hacc : v ∈ accepted m (vertices m)).
      { rewrite <- Hperm. apply elem_of_concat. eauto. }
      apply elem_of_accepted in Hacc as [_ Hf]. congruence. }
    unfold pos. rewrite !lookup_total_alt. f_equal.
    set (P := fun st : Manifold * gmap nat Vec3d =>
                positions (fst st) !! v = positions m !! v /\
                snd st !! v = positions m !! v).
    assert (HP : P (fold_left (fun st _ => laplacian_iteration weight batches st)
                      (range 0 max_iter) (m, positions m))).
    { apply fold_left_invariant; [done|].
      intros [m1 np] _ [H1 H2]. split; [|exact H1]. simpl in *.
      by rewrite for_each_vertex_parallel_lookup. }
    apply HP.
  - intros max_iter m'. unfold taubin_smooth.
    intros (n & Hn & [= <-])%bind_Ok.
    unfold pos. rewrite !lookup_total_alt. f_equal.
    destruct (Z_le_gt_dec 0 n) as [Hpos|Hneg].
    + rewrite <- (Z2Nat.id n Hpos), taubin_smooth_after.
      by apply taubin_after_boundary.
    + by rewrite seqZ_nil by lia.
  - intros weight max_iter [Hmin Hmax].
    destruct (batch_vertices_returns m Hmin Hmax) as (batches & Hb).
    unfold laplacian_smooth. rewrite Hb. simpl. eauto.
  - intros max_iter [Hmin Hmax]. unfold taubin_smooth, int_mul, int_in_range.
    destruct (INT_MIN <=? 2 * max_iter)%Z eqn:E1; [|lia].
    destruct (2 * max_iter <=? INT_MAX)%Z eqn:E2; [|lia].
    simpl. eauto.
Qed.

End SmoothingFacts.

(** C4 on the grid, [max_iter = 1]: two sub-iterations.  Vertex 4, the only
    non-boundary vertex, starts at (1, 1, 1) with the Laplacian (0, 0, -1):
    the sub-iteration 0 moves it to (1, 1, 0.5), and the sub-iteration 1,
    with the Laplacian (0, 0, -0.5) and the step -0.52, to (1, 1, 0.76). *)
Lemma taubin_smooth_sub_iterations_witness :
  (0 <= 1 <= 1073741823)%Z /\
  pos Sample.grid 4 = mkVec3d 1 1 1 /\
  pos (fst (@taubin_after Sample.collaborators Sample.grid 1)) 4 = mkVec3d 1 1 0.5 /\
  pos (fst (@taubin_after Sample.collaborators Sample.grid 2)) 4 = mkVec3d 1 1 0.76 /\
  exists m',
    @taubin_smooth Sample.collaborators Sample.grid 1 = Ok m' /\
    pos m' 4 = mkVec3d 1 1 0.76.
Proof.
  assert (Hr : (0 <= 1 <= 1073741823)%Z) by lia.
  assert (Hv : 4 ∈ vertices Sample.grid).
  { apply list_elem_of_In. vm_compute. tauto. }
  assert (Hb : boundary Sample.grid 4 = false) by reflexivity.
  destruct (@taubin_smooth_sub_iterations Sample.collaborators Sample.grid 1 Hr)
    as [(n & Hn & Hrun) Hstep].
  assert (H1 : pos (fst (@taubin_after Sample.collaborators Sample.grid 1)) 4
               = mkVec3d 1 1 0.5).
  { destruct (Hstep 0) as (new_pos & _ & _ & _ & _ & _ & Hpos & _).
    etrans; [exact (Hpos 4 Hv Hb)|]. vm_compute. reflexivity. }
  assert (H2 : pos (fst (@taubin_after Sample.collaborators Sample.grid 2)) 4
               = mkVec3d 1 1 0.76).
  { destruct (Hstep 1) as (new_pos & _ & _ & _ & _ & _ & Hpos & _).
    etrans; [exact (Hpos 4 Hv Hb)|]. vm_compute. reflexivity. }
  split; [exact Hr|]. split; [reflexivity|]. split; [exact H1|]. split; [exact H2|].
  assert (n = 2) as -> by lia.
  exists (fst (@taubin_after Sample.collaborators Sample.grid 2)).
  split; [exact Hrun|exact H2].
Defined.

(** C6 on the grid: vertex 0 is on the boundary, both smoothers return, and
    vertex 0 has not moved. *)
Lemma smoothing_fixes_boundary_witness :
  boundary Sample.grid 0 = true /\
  (exists m', @laplacian_smooth Sample.collaborators Sample.grid 0.5 3 = Ok m' /\
              pos m' 0 = pos Sample.grid 0) /\
  (exists m', @taubin_smooth Sample.collaborators Sample.grid 3 = Ok m' /\
              pos m' 0 = pos Sample.grid 0).
Proof.
  assert (Hb : boundary Sample.grid 0 = true) by reflexivity.
  destruct (@smoothing_fixes_boundary Sample.collaborators Sample.grid 0 Hb)
    as (Hl & Ht & Hlr & Htr).
  split; [exact Hb|]. split.
  - destruct (Hlr 0.5%float 3%Z) as (m' & Hm'); [by vm_compute|].
    exists m'. split; [exact Hm'|]. exact (Hl _ _ _ Hm').
  - destruct (Htr 3%Z) as (m' & Hm'); [by vm_compute|].
    exists m'. split; [exact Hm'|]. exact (Ht _ _ Hm').
Defined.

(* ===================================================================== *)
(** * 12. The cotangent Laplacian                                         *)
(* ===================================================================== *)


Section CotangentFacts.
Context `{Collaborators}.

Lemma wedge_weight_spec (m : Manifold) (v wv : nat) :
  wedge_weight m v wv = spec_weight m v wv.
Proof. reflexivity. Qed.


Lemma cot_guard_alt (p : Vec3d) (w_sum : float) :
  cot_guard p w_sum = (w_sum <? 1e-20)%float || vec_isnan p.
Proof.
  unfold cot_guard, vec_isnan.
  by destruct (w_sum <? 1e-20)%float, (isnan (vx p)), (isnan (vy p)), (isnan (vz p)).
Qed.



(** C3, as the code has it.  [cot_laplacian] returns the zero vector
    whenever the accumulated weight sum is below [1e-20] or a coordinate of
    the accumulated weighted sum is NaN. *)
Theorem cot_laplacian_guard (m : Manifold) (v : nat) :
  (snd (cot_accumulate m v) <? 1e-20)%float = true \/
  vec_isnan (fst (cot_accumulate m v)) = true ->
  cot_laplacian m v = Vec3d_of 0.
Proof.
  intros Hg. unfold cot_laplacian, cot_result. rewrite cot_guard_alt.
  destruct Hg as [-> | ->]; [done|]. by rewrite orb_true_r.
Qed.

End CotangentFacts.


(** C3 on the grid with a zero-area triangle at vertex 4: the weight sum is
    negative and the result is the zero vector. *)
Lemma cot_laplacian_guard_witness :
  (snd (@cot_accumulate Sample.collaborators Sample.degenerate_grid 4) <? 1e-20)%float = true /\
  @cot_laplacian Sample.collaborators Sample.degenerate_grid 4 = Vec3d_of 0.
Proof.
  assert (Hw : (snd (@cot_accumulate Sample.collaborators Sample.degenerate_grid 4)
                <? 1e-20)%float = true) by (vm_compute; reflexivity).
  split; [exact Hw|].
  exact (@cot_laplacian_guard Sample.collaborators Sample.degenerate_grid 4 (or_introl Hw)).
Defined.

(** C3, the claim as stated, fails: an accumulated sum with an infinite
    coordinate and a weight sum of 1 pass the test of line 120, and lines
    120-122 return the infinite quotient, not the zero vector. *)
Lemma cot_result_infinite_counterexample :
  vec_is_finite (mkVec3d infinity 0 0) = false /\
  cot_guard (mkVec3d infinity 0 0) 1 = false /\
  cot_result (mkVec3d infinity 0 0) 1 (Vec3d_of 0) = mkVec3d infinity 0 0 /\
  cot_result (mkVec3d infinity 0 0) 1 (Vec3d_of 0) <> Vec3d_of 0.
Proof.
  split; [reflexivity|]. split; [reflexivity|]. split; [reflexivity|].
  vm_compute. discriminate.
Qed.

(** Such a sum is reached: on [Sample.infinite_grid] the circulation about
    vertex 4 ends with [p = (-inf, 7071067811.865475, 0)] and a weight sum
    above [1e-20], and [cot_laplacian] returns a vector with an infinite
    coordinate although vertex 4 lies on zero-area triangles. *)
Lemma cot_laplacian_infinite_example :
  let acc := @cot_accumulate Sample.collaborators Sample.infinite_grid 4 in
  vx (fst acc) = neg_infinity /\
  vec_isnan (fst acc) = false /\
  (snd acc <? 1e-20)%float = false /\
  @cot_laplacian Sample.collaborators Sample.infinite_grid 4
  = mkVec3d neg_infinity (-0.5) 0.
Proof. vm_compute. repeat split. Qed.

(* ===================================================================== *)
(** * 13. Anisotropic smoothing                                           *)
(* ===================================================================== *)

Lemma with_positions_id (m : Manifold) : with_positions m (positions m) = m.
Proof. by destruct m. Qed.

Section AnisotropicFacts.
Context `{Collaborators}.

(** The half-edge loop, seen from one vertex: its accumulator grows by the
    contributions of the half-edges that point to it, its count by their
    number. *)
Lemma relax_accumulate_at (filtered_norms : gmap nat Vec3d) (m : Manifold)
  (hs : list nat) (acc : gmap nat Vec3d * gmap nat Z) (v : nat) :
  let new := omap (fun hid =>
                     match w_face m hid with
                     | Some f =>
                         if decide (w_vertex m hid = v)
                         then Some (contribution filtered_norms m hid f) else None
                     | None => None
                     end) hs in
  let acc' := fold_left (relax_accumulate filtered_norms m) hs acc in
  fst acc' !!! v = fold_left vadd new (fst acc !!! v) /\
  count_at (snd acc') v = (count_at (snd acc) v + Z.of_nat (length new))%Z.
Proof.
  revert acc. induction hs as [|hid hs IH]; intros acc; simpl.
  - split; [done|lia].
  - destruct (IH (relax_accumulate filtered_norms m acc hid)) as [IH1 IH2].
    rewrite IH1, IH2. clear IH IH1 IH2.
    unfold relax_accumulate. destruct (w_face m hid) as [f|]; [|done].
    destruct (decide (w_vertex m hid = v)) as [->|Hne]; simpl.
    + rewrite lookup_total_insert_eq. unfold count_at at 1.
      rewrite lookup_insert_eq. simpl.
      change (list_omap nat Vec3d ?g hs) with (omap g hs).
      split; [done|lia].
    + rewrite lookup_total_insert_ne by done. unfold count_at at 1.
      rewrite lookup_insert_ne by done.
      change (list_omap nat Vec3d ?g hs) with (omap g hs). done.
Qed.

(** The vertex loop writes [relax_npos] at every vertex and nothing else. *)
Lemma relax_write_mesh (acc : gmap nat Vec3d * gmap nat Z) (vs : list nat)
  (m : Manifold) (max_move : float) :
  fst (fold_left (relax_write acc) vs (m, max_move))
  = with_positions m
      (fold_left (fun p v => <[v := relax_npos acc v]> p) vs (positions m)).
Proof.
  revert m max_move. induction vs as [|v vs IH]; intros m max_move; simpl.
  - by rewrite with_positions_id.
  - unfold relax_write at 2. simpl. rewrite IH. reflexivity.
Qed.

Lemma relax_sub_iteration_mesh (filtered_norms : gmap nat Vec3d) (m : Manifold)
  (acc : gmap nat Vec3d * gmap nat Z) :
  let r := relax_sub_iteration filtered_norms m acc in
  exists p, fst (fst r) = with_positions m p /\
    forall v, v ∈ vertices m -> p !! v = Some (relax_npos (snd (fst r)) v).
Proof.
  unfold relax_sub_iteration. simpl. rewrite relax_write_mesh.
  eexists. split; [reflexivity|].
  intros v Hv.
  set (acc' := fold_left (relax_accumulate filtered_norms m) (halfedges m) acc).
  pose proof (fold_insert_lookup (fun _ => false) (relax_npos acc') (vertices m)
                (positions m) v) as E.
  simpl in E. rewrite E. by rewrite decide_True.
Qed.

Lemma relax_after_mesh (filtered_norms : gmap nat Vec3d) (m : Manifold) (s : nat) :
  exists p, fst (relax_after filtered_norms m s) = with_positions m p.
Proof.
  induction s as [|s [p IH]].
  - exists (positions m). simpl. by rewrite with_positions_id.
  - destruct (relax_sub_iteration_mesh filtered_norms
                (fst (relax_after filtered_norms m s))
                (snd (relax_after filtered_norms m s))) as (p' & Hp' & _).
    exists p'.
    change (fst (relax_after filtered_norms m (S s)))
      with (fst (fst (relax_sub_iteration filtered_norms
                        (fst (relax_after filtered_norms m s))
                        (snd (relax_after filtered_norms m s))))).
    rewrite Hp', IH. reflexivity.
Qed.

Lemma vsum_app (l1 l2 : list Vec3d) : vsum (l1 ++ l2) = fold_left vadd l2 (vsum l1).
Proof. unfold vsum. apply fold_left_app. Qed.

(** The accumulators after [s] sub-iterations hold everything added since
    the loop was entered. *)
Lemma relax_after_accumulators (filtered_norms : gmap nat Vec3d) (m : Manifold)
  (s : nat) (v : nat) :
  let acc := snd (relax_after filtered_norms m s) in
  fst acc !!! v = vsum (contributions_upto filtered_norms m v s) /\
  count_at (snd acc) v = Z.of_nat (length (contributions_upto filtered_norms m v s)).
Proof.
  induction s as [|s [IH1 IH2]]; simpl.
  - split; [|done]. by rewrite lookup_total_empty.
  - destruct (relax_accumulate_at filtered_norms
                (fst (relax_after filtered_norms m s))
                (halfedges (fst (relax_after filtered_norms m s)))
                (snd (relax_after filtered_norms m s)) v) as [A1 A2].
    unfold relax_sub_iteration. simpl.
    rewrite A1, A2, IH1, IH2, vsum_app, length_app.
    unfold contributions. split; [done|lia].
Qed.

(** The loop of [relaxation] runs between 1 and 100 sub-iterations. *)
Lemma relax_loop_after (filtered_norms : gmap nat Vec3d) (m : Manifold)
  (threshold : float) (n t : nat) :
  0 < n ->
  exists s, t < s <= t + n /\
    relax_loop n threshold filtered_norms (fst (relax_after filtered_norms m t))
      (snd (relax_after filtered_norms m t))
    = fst (relax_after filtered_norms m s).
Proof.
  revert t. induction n as [|n IH]; intros t Hn; [lia|].
  set (st := relax_after filtered_norms m t).
  set (r := relax_sub_iteration filtered_norms (fst st) (snd st)).
  change (relax_loop (S n) threshold filtered_norms (fst st) (snd st))
    with (if (snd r <? threshold)%float then fst (fst r)
          else relax_loop n threshold filtered_norms (fst (fst r)) (snd (fst r))).
  assert (Hr : relax_after filtered_norms m (S t) = fst r) by reflexivity.
  destruct (snd r <? threshold)%float.
  - exists (S t). split; [lia|]. by rewrite Hr.
  - destruct n as [|n].
    + exists (S t). split; [lia|]. by rewrite Hr.
    + destruct (IH (S t)) as (s & Hs & Heq); [lia|].
      exists s. split; [lia|]. rewrite <- Heq, Hr. reflexivity.
Qed.

(** C9.  Within one outer iteration the accumulator and the count of a
    vertex are constructed once, before the loop over sub-iterations, and
    carried from one sub-iteration to the next: after [s] sub-iterations
    they hold the sum and the number of all the contributions added since
    the loop was entered.  The position written at a vertex in the
    sub-iteration [s + 1] is therefore the mean of the contributions of the
    sub-iterations 1 to [s + 1] together.  [relaxation] returns the mesh
    after some number of sub-iterations between 1 and 100. *)
Theorem relaxation_accumulates (filtered_norms : gmap nat Vec3d) (m : Manifold) :
  (forall threshold, exists s, 1 <= s <= 100 /\
     relaxation threshold filtered_norms m = fst (relax_after filtered_norms m s)) /\
  relax_after filtered_norms m 0 = (m, (∅, ∅)) /\
  forall (s : nat) (v : nat),
    let before := relax_after filtered_norms m s in
    let after := relax_after filtered_norms m (S s) in
    fst (snd after) !!! v
    = fold_left vadd (contributions filtered_norms (fst before) v) (fst (snd before) !!! v) /\
    fst (snd after) !!! v = vsum (contributions_upto filtered_norms m v (S s)) /\
    count_at (snd (snd after)) v
    = Z.of_nat (length (contributions_upto filtered_norms m v (S s))) /\
    (v ∈ vertices m ->
     pos (fst after) v = average (contributions_upto filtered_norms m v (S s))).
Proof.
  split; [|split; [done|]].
  - intros threshold.
    destruct (relax_loop_after filtered_norms m threshold 100 0) as (s & Hs & Heq); [lia|].
    exists s. split; [lia|]. exact Heq.
  - intros s v. cbv zeta.
    destruct (relax_after_accumulators filtered_norms m (S s) v) as [A1 A2].
    destruct (relax_after_accumulators filtered_norms m s v) as [B1 _].
    split; [|split; [exact A1|split; [exact A2|]]].
    + rewrite A1, B1. simpl. by rewrite vsum_app.
    + intros Hv.
      destruct (relax_after_mesh filtered_norms m s) as (p & Hp).
      destruct (relax_sub_iteration_mesh filtered_norms
                  (fst (relax_after filtered_norms m s))
                  (snd (relax_after filtered_norms m s)))
        as (p' & Hmesh & Hlook).
      change (relax_after filtered_norms m (S s))
        with (fst (relax_sub_iteration filtered_norms
                     (fst (relax_after filtered_norms m s))
                     (snd (relax_after filtered_norms m s)))) in A1, A2 |- *.
      unfold pos. rewrite Hmesh. simpl positions.
      rewrite lookup_total_alt, Hlook; [|by rewrite Hp].
      simpl. unfold relax_npos, average. simpl in A1, A2. by rewrite A1, A2.
Qed.


(** The events of the outer loop: one [Outer] per pass, each with the
    [avg_len] the loop was entered with. *)
Lemma anisotropic_outer_events (nsm : NormalSmoothMethod) (avg_len : float)
  (iters : list Z) (st st' : Manifold * list event) :
  for_each (anisotropic_outer nsm avg_len) iters st = Ok st' ->
  snd st' = snd st ++ map (fun iter => Outer iter avg_len (sqr (1e-8 * avg_len))) iters.
Proof.
  intros Hrun.
  apply (for_each_invariant
           (fun pre t => snd t = snd st
              ++ map (fun iter => Outer iter avg_len (sqr (1e-8 * avg_len))) pre)
           _ _ _ _) in Hrun; [done|by rewrite app_nil_r|].
  intros pre iter t t' Ht. unfold anisotropic_outer.
  intros (filtered & _ & [= <-])%bind_Ok. simpl.
  by rewrite Ht, map_app, app_assoc.
Qed.

(** The bilateral filter never faults. *)
Lemma filter_faces_bilateral (avg_len : float) (m : Manifold) (fs : list nat)
  (filtered_norms : gmap nat Vec3d) :
  exists r, for_each (filter_face BILATERAL_NORMAL_SMOOTH avg_len m) fs filtered_norms = Ok r.
Proof.
  revert filtered_norms. induction fs as [|f fs IH]; intros filtered_norms; simpl; [eauto|].
  apply IH.
Qed.

Lemma anisotropic_bilateral_returns (m : Manifold) (max_iter : Z) :
  exists r, anisotropic_smooth_run m max_iter BILATERAL_NORMAL_SMOOTH = Ok r.
Proof.
  unfold anisotropic_smooth_run.
  generalize (m, [AvgLen (average_edge_length m)]) as st.
  generalize (average_edge_length m) as avg_len. intros avg_len.
  induction (seqZ 0 max_iter) as [|iter iters IH]; intros st; simpl; [eauto|].
  unfold anisotropic_outer at 1.
  destruct (filter_faces_bilateral avg_len (fst st) (faces (fst st)) ∅) as (r & ->).
  simpl. apply IH.
Qed.

(** The events of a run: the average is computed once, then one [Outer]
    per pass of the loop. *)
Lemma anisotropic_run_events (m : Manifold) (max_iter : Z) (nsm : NormalSmoothMethod)
  (r : Manifold * list event) :
  anisotropic_smooth_run m max_iter nsm = Ok r ->
  snd r = AvgLen (average_edge_length m)
          :: map (fun iter => Outer iter (average_edge_length m)
                                (sqr (1e-8 * average_edge_length m)))
               (seqZ 0 max_iter).
Proof. intros Hrun. by apply anisotropic_outer_events in Hrun. Qed.

(** C8, as the code has it.  [anisotropic_smooth] computes the average
    half-edge length once per call, before the first outer iteration, as
    the sum of the lengths of all half-edges of the input mesh divided by
    2.  Every outer iteration uses that one value: as the [avg_len] of
    [bilateral_filtered_normal], where it divides the distance between face
    centres in the spatial weight, and in the threshold
    [sqr(1e-8 * avg_len)] of the relaxation loop. *)
Theorem anisotropic_smooth_average_once (m : Manifold) (max_iter : Z)
  (nsm : NormalSmoothMethod) (r : Manifold * list event) :
  anisotropic_smooth_run m max_iter nsm = Ok r ->
  let avg_len := average_edge_length m in
  snd r = AvgLen avg_len
          :: map (fun iter => Outer iter avg_len (sqr (1e-8 * avg_len)))
               (seqZ 0 max_iter) /\
  avg_len
  = (fold_left (fun a hid => a + edge_length m hid) (halfedges m) 0 / 2)%float /\
  (forall st iter st',
     anisotropic_outer nsm avg_len st iter = Ok st' ->
     exists filtered_norms,
       for_each (filter_face nsm avg_len (fst st)) (faces (fst st)) ∅ = Ok filtered_norms /\
       fst st' = relaxation (sqr (1e-8 * avg_len)) filtered_norms (fst st)) /\
  (forall m1 f filtered_norms,
     filter_face BILATERAL_NORMAL_SMOOTH avg_len m1 filtered_norms f
     = Ok (<[f := bilateral_filtered_normal m1 f avg_len]> filtered_norms)) /\
  (forall m1 p0 n0 nbr,
     bilateral_weight m1 p0 n0 avg_len nbr
     = (area m1 nbr
        * c_exp (- c_acos (std_max (-1) (std_min 1 (dot (normal m1 nbr) n0))) / (M_PI / 32))
        * c_exp (- length3 (vsub (centre m1 nbr) p0) / avg_len))%float).
Proof.
  intros Hrun avg_len. split; [|split; [|split; [|split]]].
  - by apply anisotropic_run_events in Hrun.
  - reflexivity.
  - intros st iter st'. unfold anisotropic_outer.
    intros (filtered & Hf & [= <-])%bind_Ok. eauto.
  - reflexivity.
  - reflexivity.
Qed.

End AnisotropicFacts.

(** C8 on the grid, two outer iterations with the bilateral filter. *)
Lemma anisotropic_smooth_average_once_witness :
  exists r,
    @anisotropic_smooth_run Sample.collaborators Sample.grid 2 BILATERAL_NORMAL_SMOOTH
    = Ok r /\
    let avg_len := @average_edge_length Sample.collaborators Sample.grid in
    snd r = AvgLen avg_len
            :: map (fun iter => Outer iter avg_len (sqr (1e-8 * avg_len))) (seqZ 0 2).
Proof.
  destruct (@anisotropic_bilateral_returns Sample.collaborators Sample.grid 2)
    as (r & Hrun).
  exists r. split; [exact Hrun|].
  exact (proj1 (@anisotropic_smooth_average_once Sample.collaborators Sample.grid 2
                  BILATERAL_NORMAL_SMOOTH r Hrun)).
Defined.

(** C8, the claim as stated, fails: a call with two outer iterations
    computes the average half-edge length once, not twice. *)
Lemma anisotropic_average_per_iteration_counterexample :
  exists r,
    @anisotropic_smooth_run Sample.collaborators Sample.grid 2 BILATERAL_NORMAL_SMOOTH
    = Ok r /\
    length (filter is_Outer (snd r)) = 2 /\
    length (filter is_AvgLen (snd r)) = 1.
Proof.
  destruct (@anisotropic_bilateral_returns Sample.collaborators Sample.grid 2)
    as (r & Hrun).
  exists r. split; [exact Hrun|].
  rewrite (@anisotropic_run_events Sample.collaborators _ _ _ _ Hrun).
  split; reflexivity.
Qed.

(** C9 on the grid with upward normals: the second sub-iteration writes at
    vertex 4 the mean of the twelve contributions of both sub-iterations
    (z = 0.4236...), not the mean of its own six (z = 0.3472...). *)
Lemma relaxation_accumulates_witness :
  4 ∈ vertices Sample.grid /\
  pos (fst (relax_after Sample.up_normals Sample.grid 2)) 4
  = average (contributions_upto Sample.up_normals Sample.grid 4 2) /\
  average (contributions_upto Sample.up_normals Sample.grid 4 2)
  <> average (contributions Sample.up_normals
                (fst (relax_after Sample.up_normals Sample.grid 1)) 4).
Proof.
  assert (Hv : 4 ∈ vertices Sample.grid).
  { apply list_elem_of_In. vm_compute. tauto. }
  split; [exact Hv|]. split.
  - exact (proj2 (proj2 (proj2
             (proj2 (proj2 (relaxation_accumulates
                              Sample.up_normals Sample.grid)) 1 4))) Hv).
  - vm_compute. discriminate.
Defined.

(* ===================================================================== *)
(** * 14. The median normal filter                                        *)
(* ===================================================================== *)

Section NormalFilterFacts.
Context `{Collaborators}.

(** The neighbourhood of a face starts with the face itself. *)
Lemma face_neighbourhood_head (m : Manifold) (f : nat) :
  exists l, face_neighbourhood m f [] = f :: l.
Proof.
  unfold face_neighbourhood.
  apply (fold_left_invariant (fun st : gmap nat Z * list nat => exists l, snd st = f :: l)).
  - by exists [].
  - intros st wf Hst.
    apply (fold_left_invariant (fun st : gmap nat Z * list nat => exists l, snd st = f :: l));
      [done|].
    intros [touched nbrs] wv [l Hl]. unfold neighbourhood_visit. simpl in *.
    destruct (w_face m wv) as [fn|]; [|by exists l].
    case_decide; [|by exists l]. exists (l ++ [fn]). simpl. by rewrite Hl.
Qed.

(** Summing [1 - dot n n] over identical unit normals leaves the [float]
    accumulator at 0. *)
Lemma fvm_dist_sum_uniform (n : Vec3d) (k i : nat) :
  dot n n = 1%float -> i < k -> fvm_dist_sum (replicate k n) i = 0%float.
Proof.
  intros Hn Hi. unfold fvm_dist_sum.
  rewrite lookup_total_replicate_2 by done.
  generalize k at 1. intros j. induction j as [|j IH]; simpl; [done|].
  rewrite Hn. exact IH.
Qed.

(** Over identical normals [dist_sum] is the same for every [i]. *)
Lemma fvm_dist_sum_replicate (n : Vec3d) (k i j : nat) :
  i < k -> j < k -> fvm_dist_sum (replicate k n) i = fvm_dist_sum (replicate k n) j.
Proof.
  intros Hi Hj. unfold fvm_dist_sum. by rewrite !lookup_total_replicate_2 by done.
Qed.

(** When [exp] of the common argument rounds to 1 in single precision, the
    weight is 1: it is not below the cutoff. *)
Lemma fvm_weight_uniform (n : Vec3d) :
  to_float32 (c_exp ((dot n n - 1) / sigma)) = 1%float -> fvm_weight n n = 1%float.
Proof. intros He. unfold fvm_weight. rewrite He. reflexivity. Qed.

Lemma fvm_weight_unit (n : Vec3d) :
  dot n n = 1%float -> c_exp 0 = 1%float ->
  to_float32 (c_exp ((dot n n - 1) / sigma)) = 1%float.
Proof.
  intros Hn He. rewrite Hn.
  change ((1 - 1) / sigma)%float with 0%float. rewrite He. reflexivity.
Qed.

Lemma fvm_average_uniform (n : Vec3d) (k : nat) :
  fvm_weight n n = 1%float ->
  fvm_average n (replicate k n) = vsum (replicate k (smul 1 n)).
Proof.
  intros Hw. unfold fvm_average, vsum. fold Vec3d_zero.
  generalize Vec3d_zero. induction k as [|k IH]; intros avg; simpl; [done|].
  rewrite Hw. apply IH.
Qed.

(** The state of the median loop after its first [i] passes over a
    neighbourhood of identical normals: the normals read so far, and either
    a median has been chosen, or none has and [min_dist_sum] is unchanged;
    after the last pass none has been chosen only if the sum over all the
    neighbours is not below [min_dist_sum]. *)
Lemma fvm_median_uniform (m : Manifold) (nbrs : list nat) (n : Vec3d) (i : nat) :
  (forall f, f ∈ nbrs -> normal m f = n) ->
  i <= length nbrs ->
  let st := fold_left (fvm_median_step m nbrs) (seq 0 i)
              (replicate (length nbrs) Vec3d_default, min_dist_sum0, (-1)%Z) in
  fst (fst st) = replicate i n ++ replicate (length nbrs - i) Vec3d_default /\
  ((snd st = (-1)%Z /\ snd (fst st) = min_dist_sum0 /\
    (i = length nbrs ->
     nbrs = [] \/
     (fvm_dist_sum (replicate (length nbrs) n) 0 <? min_dist_sum0)%float = false))
   \/ (0 <= snd st < Z.of_nat i)%Z).
Proof.
  intros Hnormals. induction i as [|i IH]; intros Hi.
  - simpl. rewrite Nat.sub_0_r. split; [done|].
    left. split; [done|]. split; [done|].
    intros Hk. left. destruct nbrs; [done|discriminate].
  - rewrite seq_S, fold_left_app. simpl.
    destruct IH as [Hnormals_i Hmedian]; [lia|].
    set (st := fold_left (fvm_median_step m nbrs) (seq 0 i)
                 (replicate (length nbrs) Vec3d_default, min_dist_sum0, (-1)%Z)) in *.
    assert (Hins : <[i := normal m (nbrs !!! i)]> (fst (fst st))
                   = replicate (S i) n ++ replicate (length nbrs - S i) Vec3d_default).
    { rewrite Hnormals_i, (Hnormals (nbrs !!! i)) by (apply list_elem_of_lookup_total_2; lia).
      replace (length nbrs - i) with (S (length nbrs - S i)) by lia.
      rewrite insert_app_r_alt by (rewrite length_replicate; lia).
      rewrite length_replicate, Nat.sub_diag.
      rewrite (replicate_S_end i n), <- app_assoc. reflexivity. }
    unfold fvm_median_step. rewrite Hins.
    destruct (fvm_dist_sum _ i <? snd (fst st))%float eqn:E; simpl; (split; [done|]).
    + right. lia.
    + destruct Hmedian as [(Hm & Hmin & _)|Hm]; [|right; lia].
      left. split; [done|]. split; [done|].
      intros Hlast. right.
      rewrite <- Hlast, Nat.sub_diag in E.
      change (replicate 0 Vec3d_default) with (@nil Vec3d) in E.
      rewrite app_nil_r, Hmin in E.
      rewrite <- E, <- Hlast. f_equal. apply fvm_dist_sum_replicate; lia.
Qed.

(** C7, as the code has it.  When every face of the neighbourhood of [f]
    has the same normal [n], and [exp((dot(n, n) - 1) / sigma)] is 1 in
    single precision, as it is for a normal of unit length, every weight of
    [fvm_filtered_normal] is 1, and the call either fails
    [assert(median != -1)] or returns the normalised sum of one copy of [n]
    per neighbour, accumulated from the zero vector.  It returns whenever
    the single-precision sum of the terms [1 - dot(n, n)], one per neighbour,
    is below [min_dist_sum = 1e32f]; in particular whenever [dot(n, n)] is
    exactly 1. *)
Theorem fvm_filtered_normal_uniform (m : Manifold) (f : nat) (n : Vec3d) :
  (forall g, g ∈ face_neighbourhood m f [] -> normal m g = n) ->
  to_float32 (c_exp ((dot n n - 1) / sigma)) = 1%float ->
  let k := length (face_neighbourhood m f []) in
  let r := normalize (vsum (replicate k (smul 1 n))) in
  (forall g, g ∈ face_neighbourhood m f [] -> fvm_weight n (normal m g) = 1%float) /\
  (fvm_filtered_normal m f = Ok r \/ fvm_filtered_normal m f = Fault AssertionFailed) /\
  ((fvm_dist_sum (replicate k n) 0 <? min_dist_sum0)%float = true ->
   fvm_filtered_normal m f = Ok r) /\
  (dot n n = 1%float -> fvm_filtered_normal m f = Ok r).
Proof.
  intros Hnormals He k r.
  pose proof (fvm_weight_uniform n He) as Hw.
  split; [intros g Hg; by rewrite (Hnormals g Hg)|].
  destruct (face_neighbourhood_head m f) as [l Hl].
  unfold fvm_filtered_normal, fvm_filter. subst r k.
  set (nbrs := face_neighbourhood m f []) in *.
  destruct (fvm_median_uniform m nbrs n (length nbrs) Hnormals) as [Hns Hmed]; [lia|].
  set (st := fold_left (fvm_median_step m nbrs) (seq 0 (length nbrs))
               (replicate (length nbrs) Vec3d_default, min_dist_sum0, (-1)%Z)) in *.
  rewrite Nat.sub_diag in Hns. simpl in Hns. rewrite app_nil_r in Hns.
  destruct Hmed as [(Hm & _ & Hlast)|Hmed].
  - (* no median was chosen *)
    rewrite Hm. simpl.
    destruct (Hlast eq_refl) as [Hnil|Hsum]; [by rewrite Hl in Hnil|].
    split; [by right|]. split.
    + intros Hlt. rewrite Hlt in Hsum. discriminate.
    + intros Hn. rewrite fvm_dist_sum_uniform in Hsum; [discriminate|done|].
      rewrite Hl. simpl. lia.
  - assert (Hok : (if (snd st =? -1)%Z then Fault AssertionFailed
                   else Ok (normalize (fvm_average (fst (fst st) !!! Z.to_nat (snd st))
                                         (fst (fst st)))))
                  = Ok (normalize (vsum (replicate (length nbrs) (smul 1 n))))).
    { destruct (snd st =? -1)%Z eqn:E; [lia|].
      rewrite Hns, lookup_total_replicate_2 by lia.
      by rewrite fvm_average_uniform. }
    rewrite Hok. split; [by left|]. split; done.
Qed.

End NormalFilterFacts.

(** C7 on the grid in the plane [x + y + z = 0], at face 0: its seven
    neighbours have the normal [Sample.diagonal], whose dot product with
    itself is 1.0000000000000002; the weight is 1, the sum of the seven terms
    [1 - dot(n, n)] is negative, and the filter returns the normalised sum of
    seven copies of the normal. *)
Lemma fvm_filtered_normal_uniform_witness :
  dot Sample.diagonal Sample.diagonal = 1.0000000000000002%float /\
  length (face_neighbourhood Sample.diagonal_grid 0 []) = 7 /\
  @fvm_weight Sample.collaborators Sample.diagonal Sample.diagonal = 1%float /\
  (fvm_dist_sum (replicate 7 Sample.diagonal) 0 <? 0)%float = true /\
  @fvm_filtered_normal Sample.collaborators Sample.diagonal_grid 0
  = Ok (normalize (vsum (replicate
          (length (face_neighbourhood Sample.diagonal_grid 0 []))
          (smul 1 Sample.diagonal)))).
Proof.
  split; [reflexivity|]. split; [vm_compute; reflexivity|]. split; [vm_compute; reflexivity|].
  split; [vm_compute; reflexivity|].
  refine (proj1 (proj2 (proj2 (@fvm_filtered_normal_uniform Sample.collaborators
                                 Sample.diagonal_grid 0 Sample.diagonal _ _))) _).
  - intros g Hg. vm_compute in Hg.
    repeat (apply elem_of_cons in Hg as [->|Hg]; [vm_compute; reflexivity|]).
    by apply elem_of_nil in Hg.
  - vm_compute. reflexivity.
  - vm_compute. reflexivity.
Defined.

(** C7, the claim as stated, fails: on the tilted grid the seven faces of
    the neighbourhood of face 0 all have the normal [Sample.tilted], a vector
    with [dot n n = 1], and every weight is 1; the filter sums seven copies
    of it and returns a vector that differs from it in the last place. *)
Lemma fvm_filtered_normal_not_exact_counterexample :
  map (@normal Sample.collaborators Sample.tilted_grid)
    (face_neighbourhood Sample.tilted_grid 0 [])
  = replicate 7 Sample.tilted /\
  dot Sample.tilted Sample.tilted = 1%float /\
  @fvm_weight Sample.collaborators Sample.tilted Sample.tilted = 1%float /\
  @fvm_filtered_normal Sample.collaborators Sample.tilted_grid 0
  = Ok (mkVec3d 0.19245008972987529 0.19245008972987529 0.9622504486493763) /\
  @fvm_filtered_normal Sample.collaborators Sample.tilted_grid 0
  <> Ok Sample.tilted.
Proof.
  split; [vm_compute; reflexivity|].
  split; [reflexivity|]. split; [reflexivity|]. split; [vm_compute; reflexivity|].
  vm_compute. discriminate.
Qed.

(* ===================================================================== *)
(** * 15. Unguarded divisions                                             *)
(* ===================================================================== *)

(** [TAL_smoothing] divides each Laplacian by its weight sum, and
    [anisotropic_smooth] each accumulator by its count, without a test. *)
Lemma zero_over_zero : vdiv (Vec3d_of 0) 0 = Vec3d_of nan.
Proof. reflexivity. Qed.

(** A vertex no half-edge of a face points to has a count of 0, and the
    position [anisotropic_smooth] writes for it is NaN. *)
Lemma relax_npos_no_contribution (v : nat) : relax_npos (∅, ∅) v = Vec3d_of nan.
Proof. reflexivity. Qed.

(** C2 (the failing input).  On a tetrahedron whose four vertices lie at one
    point every face has zero area, so at each vertex the weights
    [vertex_areas[w.vertex()]] and their sum are 0: the division
    [laplacians[v] /= weight_sum] is 0 / 0, and one iteration of
    [TAL_smoothing] writes NaN into every position. *)
Theorem TAL_smoothing_zero_area_not_finite :
  forallb (fun v => vec_is_finite (pos Sample.collapsed_tetrahedron v))
    (vertices Sample.collapsed_tetrahedron) = true /\
  forallb (fun f => (@area Sample.collaborators Sample.collapsed_tetrahedron f =? 0)%float)
    (faces Sample.collapsed_tetrahedron) = true /\
  forallb (fun v => negb (boundary Sample.collapsed_tetrahedron v))
    (vertices Sample.collapsed_tetrahedron) = true /\
  forallb (fun v =>
             vec_isnan (pos (@TAL_smoothing Sample.collaborators
                               Sample.collapsed_tetrahedron 0.5 1) v))
    (vertices Sample.collapsed_tetrahedron) = true /\
  pos (@TAL_smoothing Sample.collaborators Sample.collapsed_tetrahedron 0.5 1) 0
  = Vec3d_of nan.
Proof. repeat split; vm_compute; reflexivity. Qed.

(* ===================================================================== *)
(** * 16. The batch scheduler: which vertex goes where                    *)
(* ===================================================================== *)

(** X1 on a bipyramid over a polygon of 15 vertices (17 vertices, closed). *)
Lemma batch_vertices_exactly_one_witness :
  exists batches,
    batch_vertices (Sample.bipyramid 15) = Ok batches /\
    length batches = 8 /\ NoDup (concat batches).
Proof.
  exists [[0; 1; 16]; [2; 3]; [4; 5]; [6; 7]; [8; 9]; [10; 11]; [12; 13]; [14; 15]].
  assert (Hrun : batch_vertices (Sample.bipyramid 15)
                 = Ok [[0; 1; 16]; [2; 3]; [4; 5]; [6; 7]; [8; 9]; [10; 11];
                       [12; 13]; [14; 15]]) by (vm_compute; reflexivity).
  split; [exact Hrun|].
  destruct (batch_vertices_exactly_one (Sample.bipyramid 15) _ (NoDup_seq 0 17) Hrun)
    as (Hlen & Hnd & _).
  split; [exact Hlen|exact Hnd].
Defined.








Lemma batch_loop_all_boundary (m : Manifold) (bs : Z) (l : list nat)
  (st : Z * list (list nat)) :
  accepted m l = [] -> for_each (batch_step m bs) l st = Ok st.
Proof.
  induction l as [|a l IH]; [done|]. simpl. unfold batch_step at 1.
  destruct (boundary m a); simpl; [exact IH|discriminate].
Qed.

(** X3.  On a mesh of at most [INT_MAX] vertices [batch_vertices] either
    returns or divides by zero.  It divides by zero exactly when the mesh has
    fewer than [CORES] vertices and one of them is not on a boundary; it
    returns exactly when the mesh has at least [CORES] vertices or all its
    vertices are on a boundary, and in the latter case all eight batches are
    empty. *)
Theorem batch_vertices_returns_iff (m : Manifold) :
  (no_vertices m <= INT_MAX)%Z ->
  (batch_vertices m = Fault DivisionByZero
   <-> (no_vertices m < CORES)%Z /\ accepted m (vertices m) <> []) /\
  ((exists batches, batch_vertices m = Ok batches)
   <-> (CORES <= no_vertices m)%Z \/ accepted m (vertices m) = []) /\
  (accepted m (vertices m) = [] -> batch_vertices m = Ok (replicate 8 [])).
Proof.
  intros Hmax.
  assert (Hempty : accepted m (vertices m) = [] -> batch_vertices m = Ok (replicate 8 [])).
  { intros He. unfold batch_vertices. by rewrite batch_loop_all_boundary. }
  assert (Hfault : (no_vertices m < CORES)%Z -> accepted m (vertices m) <> [] ->
                   batch_vertices m = Fault DivisionByZero).
  { intros Hsmall Hne. apply batch_vertices_divides_by_zero; [done|].
    destruct (accepted m (vertices m)) as [|v l] eqn:E; [done|].
    exists v. apply (elem_of_accepted m (vertices m) v). rewrite E. left. }
  split; [|split; [|exact Hempty]].
  - split.
    + intros Hf. destruct (Z_lt_ge_dec (no_vertices m) CORES) as [Hs|Hl].
      * split; [done|]. intros He. rewrite (Hempty He) in Hf. discriminate.
      * destruct (batch_vertices_returns m) as (b & Hb); [lia|done|].
        rewrite Hb in Hf. discriminate.
    + intros [Hs Hne]. by apply Hfault.
  - split.
    + intros (b & Hb). destruct (Z_lt_ge_dec (no_vertices m) CORES) as [Hs|Hl]; [|left; lia].
      right. destruct (accepted m (vertices m)) as [|v l] eqn:E; [done|].
      rewrite Hfault in Hb; [discriminate|done|done].
    + intros [Hl|He].
      * by apply batch_vertices_returns.
      * eexists. by apply Hempty.
Qed.

(** X3 on a single triangle: three vertices, all on the boundary. *)
Lemma batch_vertices_returns_iff_witness :
  (no_vertices Sample.triangle <= INT_MAX)%Z /\
  exists batches, batch_vertices Sample.triangle = Ok batches.
Proof.
  assert (Hmax : (no_vertices Sample.triangle <= INT_MAX)%Z) by (vm_compute; discriminate).
  split; [exact Hmax|].
  apply (proj1 (proj2 (batch_vertices_returns_iff Sample.triangle Hmax))).
  right. reflexivity.
Defined.

(* ===================================================================== *)
(** * 17. Laplacian smoothing, pass by pass                               *)
(* ===================================================================== *)

Lemma fold_left_ext_in {A S : Type} (f g : S -> A -> S) (l : list A) (s : S) :
  (forall a t, a ∈ l -> f t a = g t a) -> fold_left f l s = fold_left g l s.
Proof.
  revert s. induction l as [|a l IH]; intros s Hfg; simpl; [done|].
  rewrite Hfg by left. apply IH. intros b t Hb. apply Hfg. by right.
Qed.

Lemma range_seqZ (b e : Z) : (0 <= e - b < 2 ^ 64)%Z -> range b e = seqZ b (e - b).
Proof. intros Hr. unfold range. by rewrite Z.mod_small. Qed.

(** Indexing the batches by thread number visits them in order. *)
Lemma fold_left_indexed {S : Type} (f : list nat -> S -> S) (batches : list (list nat)) (s : S) :
  fold_left (fun s t => f (batches !!! Z.to_nat t) s) (seqZ 0 (Z.of_nat (length batches))) s
  = fold_left (fun s b => f b s) batches s.
Proof.
  induction batches as [|b batches IH] using rev_ind; [done|].
  rewrite length_app. simpl length. rewrite Nat.add_1_r, seqZ_S, !fold_left_app. simpl.
  rewrite Z.add_0_l, Nat2Z.id, lookup_total_app_r, Nat.sub_diag by done. simpl. f_equal.
  rewrite <- IH. apply fold_left_ext_in. intros t s' Ht.
  apply elem_of_seqZ in Ht. rewrite lookup_total_app_l by lia. done.
Qed.

Lemma for_each_vertex_parallel_all {S : Type} (batches : list (list nat))
  (f : list nat -> S -> S) (s : S) :
  length batches = Z.to_nat CORES ->
  for_each_vertex_parallel CORES batches f s = fold_left (fun s b => f b s) batches s.
Proof.
  intros Hlen. unfold for_each_vertex_parallel.
  rewrite range_seqZ by (unfold CORES; lia).
  rewrite <- fold_left_indexed. rewrite Hlen. reflexivity.
Qed.

Section LaplacianFacts.
Context `{Collaborators}.

Lemma laplacian_batches_lookup (weight : float) (m : Manifold) (batches : list (list nat))
  (new_pos : gmap nat Vec3d) (v : nat) :
  fold_left (fun s b => laplacian_write weight m b s) batches new_pos !! v
  = if decide (v ∈ concat batches)
    then Some (vadd (pos m v) (smul weight (laplacian m v)))
    else new_pos !! v.
Proof.
  revert new_pos. induction batches as [|b batches IH]; intros new_pos.
  - destruct (decide (v ∈ concat [])) as [Hin|_]; [|done]. by apply elem_of_nil in Hin.
  - change (fold_left (fun s b => laplacian_write weight m b s) (b :: batches) new_pos)
      with (fold_left (fun s b => laplacian_write weight m b s) batches
              (laplacian_write weight m b new_pos)).
    change (concat (b :: batches)) with (b ++ concat batches).
    rewrite IH, laplacian_write_lookup.
    destruct (decide (v ∈ concat batches)) as [Hin|Hout].
    + rewrite decide_True; [done|]. apply elem_of_app. by right.
    + destruct (decide (v ∈ b)) as [Hb|Hnb].
      * rewrite decide_True; [done|]. apply elem_of_app. by left.
      * rewrite decide_False; [done|]. rewrite elem_of_app. tauto.
Qed.

(** X4.  One pass of [laplacian_smooth] over the eight batches leaves in
    [new_pos] what the same writes leave in any other order: every
    interleaving of the eight threads, a permutation [writes] of all the
    batched vertices, gives the buffer that running the batches one after
    the other gives.  Each write reads the mesh only and depends on its
    vertex alone. *)
Theorem laplacian_pass_any_interleaving (weight : float) (m : Manifold)
  (batches : list (list nat)) (writes : list nat) (new_pos : gmap nat Vec3d) :
  length batches = 8 -> writes ≡ₚ concat batches ->
  for_each_vertex_parallel CORES batches (laplacian_write weight m) new_pos
  = laplacian_write weight m writes new_pos.
Proof.
  intros Hlen Hperm. rewrite for_each_vertex_parallel_all by done.
  apply map_eq. intros v.
  rewrite laplacian_batches_lookup, laplacian_write_lookup.
  destruct (decide (v ∈ concat batches)) as [Hin|Hout].
  - rewrite decide_True; [done|]. by rewrite Hperm.
  - rewrite decide_False; [done|]. by rewrite Hperm.
Qed.

Lemma laplacian_smooth_after (weight : float) (batches : list (list nat)) (m : Manifold)
  (l : list Z) :
  fold_left (fun st _ => laplacian_iteration weight batches st) l (m, positions m)
  = laplacian_after weight batches m (length l).
Proof.
  induction l as [|a l IH] using rev_ind; [done|].
  rewrite fold_left_app, IH, length_app. simpl. by rewrite Nat.add_1_r.
Qed.

Lemma laplacian_after_positions (weight : float) (m : Manifold) (batches : list (list nat))
  (n : nat) (v : nat) :
  batch_vertices m = Ok batches ->
  let st := laplacian_after weight batches m n in
  let st' := laplacian_after weight batches m (S n) in
  (~ (v ∈ vertices m /\ boundary m v = false) ->
     positions (fst st) !! v = positions m !! v /\ snd st !! v = positions m !! v) /\
  positions (fst st') !! v
  = if decide (v ∈ vertices m /\ boundary m v = false)
    then Some (vadd (pos (fst st) v) (smul weight (laplacian (fst st) v)))
    else positions m !! v.
Proof.
  intros Hb. pose proof Hb as [Hlen Hperm]%batch_vertices_partition.
  assert (Hin : v ∈ concat batches <-> v ∈ vertices m /\ boundary m v = false).
  { rewrite Hperm. apply elem_of_accepted. }
  assert (Hstep : forall k,
    positions (fst (laplacian_after weight batches m (S k))) !! v
    = if decide (v ∈ vertices m /\ boundary m v = false)
      then Some (vadd (pos (fst (laplacian_after weight batches m k)) v)
                   (smul weight (laplacian (fst (laplacian_after weight batches m k)) v)))
      else snd (laplacian_after weight batches m k) !! v).
  { intros k. simpl. rewrite for_each_vertex_parallel_all by done.
    rewrite laplacian_batches_lookup.
    destruct (decide (v ∈ concat batches)) as [Hc|Hc].
    - rewrite decide_True; [done|]. by apply Hin.
    - rewrite decide_False; [done|]. by rewrite <- Hin. }
  assert (Hout : ~ (v ∈ vertices m /\ boundary m v = false) ->
    forall k, positions (fst (laplacian_after weight batches m k)) !! v = positions m !! v /\
              snd (laplacian_after weight batches m k) !! v = positions m !! v).
  { intros Hn k. induction k as [|k [IH1 IH2]]; [done|].
    split; [|exact IH1]. rewrite Hstep, decide_False by done. exact IH2. }
  cbv zeta. split; [intros Hn; by apply Hout|].
  rewrite Hstep. destruct (decide (v ∈ vertices m /\ boundary m v = false)) as [|Hn]; [done|].
  by apply Hout.
Qed.

(** X5.  [laplacian_smooth] is a simultaneous update with two buffers
    that never mix: after each pass a non-boundary vertex [v] of the mesh
    holds [pos(v) + weight * laplacian(v)], both taken in the mesh as it was
    before the pass, and every other entry of the position vector is the one
    of the input mesh, although the buffer written to is the one read two
    passes ago. *)
Theorem laplacian_smooth_simultaneous (m : Manifold) (weight : float)
  (batches : list (list nat)) :
  batch_vertices m = Ok batches ->
  (forall max_iter, exists n,
     laplacian_smooth m weight max_iter = Ok (fst (laplacian_after weight batches m n))) /\
  forall (n : nat) (v : nat),
    positions (fst (laplacian_after weight batches m (S n))) !! v
    = if decide (v ∈ vertices m /\ boundary m v = false)
      then Some (vadd (pos (fst (laplacian_after weight batches m n)) v)
                   (smul weight (laplacian (fst (laplacian_after weight batches m n)) v)))
      else positions m !! v.
Proof.
  intros Hb. split.
  - intros max_iter. exists (length (range 0 max_iter)).
    unfold laplacian_smooth. rewrite Hb. simpl. by rewrite laplacian_smooth_after.
  - intros n v. by apply laplacian_after_positions.
Qed.

(** X6.  [laplacian_smooth] makes [max_iter] passes when [max_iter] is not
    negative.  A negative [max_iter] does not skip the loop: the iterator of
    [range] is an [unsigned long] compared with [!=], and the loop makes
    [2^64 + max_iter] passes. *)
Theorem laplacian_smooth_pass_count (m : Manifold) (weight : float)
  (batches : list (list nat)) (max_iter : Z) :
  batch_vertices m = Ok batches -> (INT_MIN <= max_iter <= INT_MAX)%Z ->
  length (range 0 max_iter)
  = Z.to_nat (if (max_iter <? 0)%Z then 2 ^ 64 + max_iter else max_iter) /\
  laplacian_smooth m weight max_iter
  = Ok (fst (laplacian_after weight batches m
               (Z.to_nat (if (max_iter <? 0)%Z then 2 ^ 64 + max_iter else max_iter)))).
Proof.
  intros Hb Hr.
  assert (Hlen : length (range 0 max_iter)
                 = Z.to_nat (if (max_iter <? 0)%Z then 2 ^ 64 + max_iter else max_iter)).
  { unfold range. rewrite length_seqZ, Z.sub_0_r. f_equal.
    unfold INT_MIN, INT_MAX in Hr.
    destruct (max_iter <? 0)%Z eqn:E.
    - apply Z.ltb_lt in E. symmetry. apply (Z.mod_unique _ _ (-1)); lia.
    - apply Z.ltb_ge in E. apply Z.mod_small. lia. }
  split; [exact Hlen|].
  unfold laplacian_smooth. rewrite Hb. simpl. by rewrite laplacian_smooth_after, Hlen.
Qed.

(** X7.  [laplacian_smooth] batches the vertices before its loop: on a mesh
    of fewer than [CORES] vertices with a vertex off the boundary it divides
    by zero whatever [max_iter] is, 0 included; wherever [batch_vertices]
    returns, [max_iter = 0] gives the mesh back as it was. *)
Theorem laplacian_smooth_batches_first (m : Manifold) (weight : float) :
  ((no_vertices m < CORES)%Z -> (exists v, v ∈ vertices m /\ boundary m v = false) ->
   forall max_iter, laplacian_smooth m weight max_iter = Fault DivisionByZero) /\
  ((exists batches, batch_vertices m = Ok batches) ->
   laplacian_smooth m weight 0 = Ok m).
Proof.
  split.
  - intros Hs Hv max_iter. unfold laplacian_smooth.
    by rewrite batch_vertices_divides_by_zero.
  - intros (batches & Hb). unfold laplacian_smooth. by rewrite Hb.
Qed.

End LaplacianFacts.

(** X4 on the bipyramid of 17 vertices: the writes of the eight batches in
    reverse. *)
Lemma laplacian_pass_any_interleaving_witness :
  let batches := [[0; 1; 16]; [2; 3]; [4; 5]; [6; 7]; [8; 9]; [10; 11]; [12; 13]; [14; 15]] in
  let m := Sample.bipyramid 15 in
  for_each_vertex_parallel CORES batches
    (@laplacian_write Sample.collaborators 0.5 m) (positions m)
  = @laplacian_write Sample.collaborators 0.5 m (reverse (concat batches)) (positions m).
Proof.
  intros batches m.
  apply (@laplacian_pass_any_interleaving Sample.collaborators); [reflexivity|].
  apply reverse_Permutation.
Defined.

(** X5 on the grid, whose only non-boundary vertex is vertex 4. *)
Lemma laplacian_smooth_simultaneous_witness :
  batch_vertices Sample.grid = Ok [[4]; []; []; []; []; []; []; []] /\
  exists n,
    @laplacian_smooth Sample.collaborators Sample.grid 0.5 2
    = Ok (fst (@laplacian_after Sample.collaborators 0.5
                 [[4]; []; []; []; []; []; []; []] Sample.grid n)).
Proof.
  assert (Hb : batch_vertices Sample.grid = Ok [[4]; []; []; []; []; []; []; []])
    by reflexivity.
  split; [exact Hb|].
  exact (proj1 (@laplacian_smooth_simultaneous Sample.collaborators Sample.grid 0.5 _ Hb) 2%Z).
Defined.

(** X6 on the grid with [max_iter = -1]. *)
Lemma laplacian_smooth_pass_count_witness :
  (INT_MIN <= -1 <= INT_MAX)%Z /\
  length (range 0 (-1)) = Z.to_nat (if (-1 <? 0)%Z then 2 ^ 64 + -1 else -1).
Proof.
  assert (Hb : batch_vertices Sample.grid = Ok [[4]; []; []; []; []; []; []; []])
    by reflexivity.
  assert (Hr : (INT_MIN <= -1 <= INT_MAX)%Z) by (unfold INT_MIN, INT_MAX; lia).
  split; [exact Hr|].
  exact (proj1 (@laplacian_smooth_pass_count Sample.collaborators Sample.grid 0.5 _ (-1) Hb Hr)).
Defined.

(* ===================================================================== *)
(** * 18. Iteration counts at the edges                                   *)
(* ===================================================================== *)

Section IterationFacts.
Context `{Collaborators}.

(** X8.  The iteration counts at the edges.  [taubin_smooth] computes
    [2*max_iter] in [int]: it overflows exactly when [max_iter] is outside
    [-2^30, 2^30 - 1]; a [max_iter] of 0 or below (and not below [-2^30])
    runs no sub-iteration and gives the mesh back as it was.  With
    [max_iter] 0 or negative, [anisotropic_smooth] and [TAL_smoothing] run no
    iteration and give the mesh back as it was. *)
Theorem iteration_count_edges (m : Manifold) (max_iter : Z) :
  (taubin_smooth m max_iter = Fault SignedOverflow
   <-> ~ (-1073741824 <= max_iter <= 1073741823)%Z) /\
  ((-1073741824 <= max_iter <= 0)%Z -> taubin_smooth m max_iter = Ok m) /\
  ((max_iter <= 0)%Z ->
   forall nsm w,
     anisotropic_smooth m max_iter nsm = Ok m /\ TAL_smoothing m w max_iter = m).
Proof.
  split; [|split].
  - unfold taubin_smooth, int_mul, int_in_range, INT_MIN, INT_MAX.
    destruct (-2147483648 <=? 2 * max_iter)%Z eqn:E1;
      destruct (2 * max_iter <=? 2147483647)%Z eqn:E2; simpl;
      (split; [try discriminate; lia|try done; lia]).
  - intros Hr. unfold taubin_smooth, int_mul, int_in_range, INT_MIN, INT_MAX.
    destruct (-2147483648 <=? 2 * max_iter)%Z eqn:E1; [|lia].
    destruct (2 * max_iter <=? 2147483647)%Z eqn:E2; [|lia].
    simpl. by rewrite seqZ_nil by lia.
  - intros Hn nsm w.
    unfold anisotropic_smooth, anisotropic_smooth_run, TAL_smoothing.
    by rewrite seqZ_nil by lia.
Qed.

End IterationFacts.

(* ===================================================================== *)
(** * 19. The neighbourhood of a face                                     *)
(* ===================================================================== *)

Lemma fold_left_concat_map {A B S : Type} (step : S -> B -> S) (g : A -> list B)
  (l : list A) (s : S) :
  fold_left (fun st a => fold_left step (g a) st) l s
  = fold_left step (concat (map g l)) s.
Proof.
  revert s. induction l as [|a l IH]; intros s; simpl; [done|].
  by rewrite fold_left_app, IH.
Qed.

Lemma fold_left_invariant_prefix {A S : Type} (P : list A -> S -> Prop)
  (f : S -> A -> S) (l : list A) (s : S) :
  P [] s -> (forall pre a t, P pre t -> P (pre ++ [a]) (f t a)) -> P l (fold_left f l s).
Proof.
  intros H0 Hstep.
  assert (G : forall post pre t, P pre t -> P (pre ++ post) (fold_left f post t)).
  { induction post as [|a post IH]; intros pre t Hp; simpl.
    - by rewrite app_nil_r.
    - rewrite (cons_middle a pre post), app_assoc. apply IH. by apply Hstep. }
  exact (G l [] s H0).
Qed.

Lemma face_neighbourhood_flat (m : Manifold) (f : nat) (nbrs : list nat) :
  face_neighbourhood m f nbrs
  = snd (fold_left (neighbourhood_visit m f) (neighbourhood_walkers m f)
           (<[f := 1%Z]> ∅, nbrs ++ [f])).
Proof.
  unfold face_neighbourhood, neighbourhood_walkers.
  by rewrite (fold_left_concat_map (neighbourhood_visit m f)
                (fun wf => ring_cw m (w_vertex m wf))).
Qed.

Lemma neighbourhood_visit_inv (m : Manifold) (f : nat) (pre : list nat) (wv : nat)
  (st : gmap nat Z * list nat) :
  neighbourhood_inv m f pre st ->
  neighbourhood_inv m f (pre ++ [wv]) (neighbourhood_visit m f st wv).
Proof.
  destruct st as [touched nbrs]. intros (Ht & Hnd & [l Hl] & Hin). simpl in *.
  assert (Hf : touched !! f = Some 1%Z).
  { rewrite Ht, decide_True; [done|]. rewrite Hl. left. }
  unfold neighbourhood_visit. simpl.
  destruct (w_face m wv) as [fn|] eqn:Hface.
  - rewrite Hf, (Ht fn). simpl.
    destruct (decide (fn ∈ nbrs)) as [Hfn|Hfn]; simpl.
    + split; [exact Ht|]. split; [exact Hnd|]. split; [by exists l|].
      intros g. rewrite Hin. split.
      * intros [->|(w & Hw & Hg)]; [by left|]. right. exists w. split; [|done].
        apply elem_of_app. by left.
      * intros [->|(w & Hw & Hg)]; [by left|].
        apply elem_of_app in Hw as [Hw|Hw]; [right; eauto|].
        apply list_elem_of_singleton in Hw as ->.
        rewrite Hface in Hg. injection Hg as <-. by apply Hin.
    + split; [|split; [|split]]; simpl.
      * intros g. destruct (decide (g = fn)) as [->|Hne].
        -- rewrite lookup_insert_eq, decide_True; [done|]. apply elem_of_app. right. left.
        -- rewrite lookup_insert_ne by done. rewrite Ht.
           destruct (decide (g ∈ nbrs)) as [Hg|Hg].
           ++ rewrite decide_True; [done|]. apply elem_of_app. by left.
           ++ rewrite decide_False; [done|]. rewrite elem_of_app, list_elem_of_singleton. tauto.
      * apply NoDup_app. split; [done|]. split; [|apply NoDup_singleton].
        intros x Hx ->%list_elem_of_singleton. done.
      * exists (l ++ [fn]). by rewrite Hl.
      * intros g. rewrite elem_of_app, list_elem_of_singleton, Hin. split.
        -- intros [[->|(w & Hw & Hg)]| ->]; [by left| |].
           ++ right. exists w. split; [|done]. apply elem_of_app. by left.
           ++ right. exists wv. split; [|done]. apply elem_of_app. right. left.
        -- intros [->|(w & Hw & Hg)]; [left; by left|].
           apply elem_of_app in Hw as [Hw|Hw]; [left; right; eauto|].
           apply list_elem_of_singleton in Hw as ->.
           rewrite Hface in Hg. injection Hg as <-. by right.
  - split; [exact Ht|]. split; [exact Hnd|]. split; [by exists l|].
    intros g. rewrite Hin. split.
    + intros [->|(w & Hw & Hg)]; [by left|]. right. exists w. split; [|done].
      apply elem_of_app. by left.
    + intros [->|(w & Hw & Hg)]; [by left|].
      apply elem_of_app in Hw as [Hw|Hw]; [right; eauto|].
      apply list_elem_of_singleton in Hw as ->. congruence.
Qed.

Lemma elem_of_neighbourhood_walkers (m : Manifold) (f wv : nat) :
  wv ∈ neighbourhood_walkers m f
  <-> exists wf, wf ∈ face_cw m f /\ wv ∈ ring_cw m (w_vertex m wf).
Proof.
  unfold neighbourhood_walkers. rewrite elem_of_concat. split.
  - intros (b & Hwv & Hb). apply list_elem_of_fmap in Hb as (wf & -> & Hwf). eauto.
  - intros (wf & Hwf & Hwv). eexists. split; [exact Hwv|].
    apply list_elem_of_fmap. eauto.
Qed.

(** X9.  [face_neighbourhood], called with an empty vector, returns [f]
    first, no face twice, and exactly [f] and the faces of the walkers that
    circulate the vertices of [f]: the faces that share a vertex with [f]. *)
Theorem face_neighbourhood_members (m : Manifold) (f : nat) :
  NoDup (face_neighbourhood m f []) /\
  head (face_neighbourhood m f []) = Some f /\
  forall g, g ∈ face_neighbourhood m f []
    <-> g = f \/ exists wf wv, wf ∈ face_cw m f /\ wv ∈ ring_cw m (w_vertex m wf) /\
                               w_face m wv = Some g.
Proof.
  rewrite face_neighbourhood_flat.
  pose proof (fold_left_invariant_prefix (neighbourhood_inv m f) (neighbourhood_visit m f)
                (neighbourhood_walkers m f) (<[f := 1%Z]> ∅, [] ++ [f])) as Hinv.
  destruct Hinv as (_ & Hnd & [l Hl] & Hin).
  - split; [|split; [|split]]; simpl.
    + intros g. destruct (decide (g = f)) as [->|Hne].
      * rewrite lookup_insert_eq, decide_True; [done|]. left.
      * rewrite lookup_insert_ne, lookup_empty by done.
        rewrite decide_False; [done|]. by intros ->%list_elem_of_singleton.
    + apply NoDup_singleton.
    + by exists [].
    + intros g. rewrite list_elem_of_singleton. split; [by left|].
      intros [->|(w & Hw & _)]; [done|]. by apply elem_of_nil in Hw.
  - intros. by apply neighbourhood_visit_inv.
  - split; [exact Hnd|]. split; [by rewrite Hl|].
    intros g. rewrite Hin. split.
    + intros [->|(wv & Hwv & Hg)]; [by left|]. right.
      apply elem_of_neighbourhood_walkers in Hwv as (wf & Hwf & Hwv). eauto.
    + intros [->|(wf & wv & Hwf & Hwv & Hg)]; [by left|]. right.
      exists wv. split; [|done]. apply elem_of_neighbourhood_walkers. eauto.
Qed.

Lemma neighbourhood_visit_prefix (m : Manifold) (f : nat) (l : list nat)
  (touched : gmap nat Z) (a b : list nat) :
  fold_left (neighbourhood_visit m f) l (touched, a ++ b)
  = (fst (fold_left (neighbourhood_visit m f) l (touched, b)),
     a ++ snd (fold_left (neighbourhood_visit m f) l (touched, b))).
Proof.
  revert touched b. induction l as [|wv l IH]; intros touched b; simpl; [done|].
  unfold neighbourhood_visit at 2 4 6. simpl.
  destruct (w_face m wv) as [fn|]; [|apply IH].
  destruct (decide _); [|apply IH].
  rewrite <- app_assoc. apply IH.
Qed.

(** X10.  [face_neighbourhood] appends to the vector it is given and never
    looks at what the vector holds: the result is the vector followed by the
    neighbourhood an empty vector would have received. *)
Theorem face_neighbourhood_appends (m : Manifold) (f : nat) (nbrs : list nat) :
  face_neighbourhood m f nbrs = nbrs ++ face_neighbourhood m f [].
Proof.
  rewrite !face_neighbourhood_flat.
  by rewrite (neighbourhood_visit_prefix m f _ _ nbrs ([] ++ [f])).
Qed.

(* ===================================================================== *)
(** * 20. Not-a-number                                                    *)
(* ===================================================================== *)

Lemma SFcompare_refl_nan (x : spec_float) :
  SFcompare x x = Some Eq \/ x = S754_nan.
Proof.
  destruct x as [s|s| |s m e]; simpl; auto.
  - left. by destruct s.
  - left. rewrite Z.compare_refl, Pos.compare_cont_refl. by destruct s.
Qed.

Lemma is_nan_Prim2SF (x : float) : is_nan x = true <-> Prim2SF x = S754_nan.
Proof.
  unfold is_nan. rewrite FloatAxioms.eqb_spec. unfold SFeqb. split.
  - intros Hx. destruct (SFcompare_refl_nan (Prim2SF x)) as [E|E]; [|done].
    rewrite E in Hx. discriminate.
  - intros ->. reflexivity.
Qed.

Lemma is_nan_add_l x y : is_nan x = true -> is_nan (x + y) = true.
Proof. rewrite !is_nan_Prim2SF, FloatAxioms.add_spec. intros ->. reflexivity. Qed.
Lemma is_nan_add_r x y : is_nan y = true -> is_nan (x + y) = true.
Proof. rewrite !is_nan_Prim2SF, FloatAxioms.add_spec. intros ->. by destruct (Prim2SF x). Qed.
Lemma is_nan_sub_r x y : is_nan y = true -> is_nan (x - y) = true.
Proof. rewrite !is_nan_Prim2SF, FloatAxioms.sub_spec. intros ->. by destruct (Prim2SF x). Qed.
Lemma is_nan_mul_l x y : is_nan x = true -> is_nan (x * y) = true.
Proof. rewrite !is_nan_Prim2SF, FloatAxioms.mul_spec. intros ->. reflexivity. Qed.
Lemma is_nan_ltb_l x y : is_nan x = true -> (x <? y)%float = false.
Proof. rewrite is_nan_Prim2SF, FloatAxioms.ltb_spec. intros ->. reflexivity. Qed.
Lemma is_nan_ltb_r x y : is_nan y = true -> (x <? y)%float = false.
Proof. rewrite is_nan_Prim2SF, FloatAxioms.ltb_spec. intros ->. unfold SFltb. by destruct (Prim2SF x). Qed.
Lemma is_nan_to_float32 x : is_nan x = true -> is_nan (to_float32 x) = true.
Proof. intros Hx. unfold to_float32. apply is_nan_Prim2SF in Hx as E. by rewrite E. Qed.

Lemma dot_nan_l (a b : Vec3d) : vec_isnan a = true -> is_nan (dot a b) = true.
Proof.
  unfold vec_isnan, isnan, dot. intros [[Hx|Hy]%orb_true_iff|Hz]%orb_true_iff.
  - apply is_nan_add_l, is_nan_add_l, is_nan_add_r. by apply is_nan_mul_l.
  - apply is_nan_add_l, is_nan_add_r. by apply is_nan_mul_l.
  - apply is_nan_add_r. by apply is_nan_mul_l.
Qed.

Lemma fvm_dist_sum_nan (normals : list Vec3d) (i : nat) :
  normals <> [] -> vec_isnan (normals !!! i) = true ->
  is_nan (fvm_dist_sum normals i) = true.
Proof.
  intros Hne Hn. unfold fvm_dist_sum.
  assert (G : forall l d, (l <> [] \/ is_nan d = true) ->
            is_nan (fold_left (fun dist_sum nj =>
                       to_float32 (dist_sum + (1 - dot (normals !!! i) nj))) l d) = true).
  { induction l as [|nj l IH]; intros d Hd; simpl.
    - destruct Hd; done.
    - apply IH. right. apply is_nan_to_float32, is_nan_add_r, is_nan_sub_r.
      by apply dot_nan_l. }
  apply G. by left.
Qed.


(* ===================================================================== *)
(** * 21. The median normal filter, in general                            *)
(* ===================================================================== *)

Section MedianFilterFacts.
Context `{Collaborators}.

Lemma fvm_median_state (m : Manifold) (nbrs : list nat) (i : nat) :
  i <= length nbrs ->
  let st := fold_left (fvm_median_step m nbrs) (seq 0 i)
              (replicate (length nbrs) Vec3d_default, min_dist_sum0, (-1)%Z) in
  fst (fst st) = map (normal m) (take i nbrs) ++ replicate (length nbrs - i) Vec3d_default /\
  (snd st = (-1)%Z \/ (0 <= snd st < Z.of_nat i)%Z).
Proof.
  induction i as [|i IH]; intros Hi.
  - simpl. rewrite Nat.sub_0_r. split; [done|by left].
  - rewrite seq_S, fold_left_app. simpl.
    destruct IH as [Hn Hmed]; [lia|].
    set (st := fold_left (fvm_median_step m nbrs) (seq 0 i)
                 (replicate (length nbrs) Vec3d_default, min_dist_sum0, (-1)%Z)) in *.
    assert (Hins : <[i := normal m (nbrs !!! i)]> (fst (fst st))
                   = map (normal m) (take (S i) nbrs)
                     ++ replicate (length nbrs - S i) Vec3d_default).
    { rewrite Hn.
      replace (length nbrs - i) with (S (length nbrs - S i)) by lia.
      rewrite insert_app_r_alt by (rewrite length_map, length_take; lia).
      rewrite length_map, length_take, Nat.min_l, Nat.sub_diag by lia.
      destruct (lookup_lt_is_Some_2 nbrs i) as [g Hg]; [lia|].
      rewrite (take_S_r _ _ _ Hg), map_app, <- app_assoc.
      by rewrite (list_lookup_total_correct _ _ _ Hg). }
    unfold fvm_median_step. rewrite Hins.
    destruct (_ <? _)%float; simpl; (split; [done|]).
    + right. lia.
    + destruct Hmed; [by left|right; lia].
Qed.

(** X11.  Whenever [fvm_filtered_normal] returns, its result is the
    normalised weighted sum of the normals of all the faces of the
    neighbourhood, each weighted against the normal of one face [g] of the
    neighbourhood, the median.  The entries of [normals] that the first
    loop reads before it has filled them can change which face is chosen,
    not what is averaged. *)
Theorem fvm_filtered_normal_result (m : Manifold) (f : nat) (r : Vec3d) :
  fvm_filtered_normal m f = Ok r ->
  exists g, g ∈ face_neighbourhood m f [] /\
    r = normalize (fvm_average (normal m g) (map (normal m) (face_neighbourhood m f []))).
Proof.
  unfold fvm_filtered_normal, fvm_filter.
  set (nbrs := face_neighbourhood m f []).
  destruct (fvm_median_state m nbrs (length nbrs)) as [Hn Hmed]; [lia|].
  set (st := fold_left (fvm_median_step m nbrs) (seq 0 (length nbrs))
               (replicate (length nbrs) Vec3d_default, min_dist_sum0, (-1)%Z)) in *.
  rewrite Nat.sub_diag, firstn_all in Hn. simpl in Hn. rewrite app_nil_r in Hn.
  destruct (snd st =? -1)%Z eqn:E; [discriminate|].
  intros [= <-]. apply Z.eqb_neq in E. destruct Hmed as [|Hmed]; [done|].
  destruct (lookup_lt_is_Some_2 nbrs (Z.to_nat (snd st))) as [g Hg]; [lia|].
  exists g. split; [by eapply list_elem_of_lookup_2|].
  rewrite Hn. f_equal. f_equal.
  apply list_lookup_total_correct. by rewrite list_lookup_fmap, Hg.
Qed.

Lemma fvm_median_nan (m : Manifold) (nbrs : list nat) (i : nat) :
  (forall g, g ∈ nbrs -> vec_isnan (normal m g) = true) -> i <= length nbrs ->
  snd (fold_left (fvm_median_step m nbrs) (seq 0 i)
         (replicate (length nbrs) Vec3d_default, min_dist_sum0, (-1)%Z)) = (-1)%Z.
Proof.
  intros Hnan. induction i as [|i IH]; intros Hi; [done|].
  rewrite seq_S, fold_left_app. simpl.
  destruct (fvm_median_state m nbrs i) as [Hn _]; [lia|].
  set (st := fold_left (fvm_median_step m nbrs) (seq 0 i)
               (replicate (length nbrs) Vec3d_default, min_dist_sum0, (-1)%Z)) in *.
  unfold fvm_median_step.
  rewrite is_nan_ltb_l; [simpl; apply IH; lia|].
  assert (Hlen : i < length (fst (fst st))).
  { rewrite Hn, length_app, length_map, length_take, length_replicate. lia. }
  apply fvm_dist_sum_nan.
  - intros Hnil. apply (f_equal length) in Hnil. rewrite length_insert in Hnil.
    simpl in Hnil. lia.
  - rewrite list_lookup_total_insert_eq by done. apply Hnan.
    apply list_elem_of_lookup_total_2. lia.
Qed.

(** X12.  When the normal of every face of the neighbourhood of [f] has a
    NaN coordinate, every [dist_sum] is NaN, no comparison with
    [min_dist_sum] succeeds, [median] stays -1 and [assert(median != -1)]
    fails.  When [f] is the first face of the mesh, [anisotropic_smooth]
    with the median filter fails there in its first iteration. *)
Theorem fvm_filtered_normal_nan_normals (m : Manifold) (f : nat) :
  (forall g, g ∈ face_neighbourhood m f [] -> vec_isnan (normal m g) = true) ->
  fvm_filtered_normal m f = Fault AssertionFailed /\
  forall fs max_iter, faces m = f :: fs -> (1 <= max_iter)%Z ->
    anisotropic_smooth m max_iter FVM_NORMAL_SMOOTH = Fault AssertionFailed.
Proof.
  intros Hnan.
  assert (Hf : fvm_filtered_normal m f = Fault AssertionFailed).
  { unfold fvm_filtered_normal, fvm_filter. by rewrite fvm_median_nan. }
  split; [exact Hf|].
  intros fs max_iter Hfaces Hiter.
  unfold anisotropic_smooth, anisotropic_smooth_run.
  rewrite seqZ_cons by lia. simpl.
  unfold anisotropic_outer at 1. simpl. rewrite Hfaces. simpl.
  unfold filter_face at 1. by rewrite Hf.
Qed.

End MedianFilterFacts.

(** X11 on the tilted grid, at face 2. *)
Lemma fvm_filtered_normal_result_witness :
  exists g, g ∈ face_neighbourhood Sample.tilted_grid 2 [] /\
    Sample.tilted
    = normalize (@fvm_average Sample.collaborators
                   (@normal Sample.collaborators Sample.tilted_grid g)
                   (map (@normal Sample.collaborators Sample.tilted_grid)
                      (face_neighbourhood Sample.tilted_grid 2 []))).
Proof.
  apply (@fvm_filtered_normal_result Sample.collaborators Sample.tilted_grid 2 Sample.tilted).
  vm_compute. reflexivity.
Defined.

(** X12 on the tetrahedron whose coordinates are NaN. *)
Lemma fvm_filtered_normal_nan_normals_witness :
  @fvm_filtered_normal Sample.collaborators Sample.nan_tetrahedron 0
  = Fault AssertionFailed /\
  @anisotropic_smooth Sample.collaborators Sample.nan_tetrahedron 1 FVM_NORMAL_SMOOTH
  = Fault AssertionFailed.
Proof.
  assert (Hnan : forall g, g ∈ face_neighbourhood Sample.nan_tetrahedron 0 [] ->
                   vec_isnan (@normal Sample.collaborators Sample.nan_tetrahedron g) = true).
  { intros g Hg. vm_compute in Hg.
    repeat (apply elem_of_cons in Hg as [->|Hg]; [vm_compute; reflexivity|]).
    by apply elem_of_nil in Hg. }
  destruct (@fvm_filtered_normal_nan_normals Sample.collaborators Sample.nan_tetrahedron 0 Hnan)
    as [Hf Ha].
  split; [exact Hf|].
  apply (Ha [1; 2; 3] 1%Z); [reflexivity|lia].
Defined.

(* ===================================================================== *)
(** * 22. Anisotropic smoothing at a vertex without faces                 *)
(* ===================================================================== *)

Lemma omap_all_None {A B : Type} (f : A -> option B) (l : list A) :
  (forall x, x ∈ l -> f x = None) -> omap f l = [].
Proof.
  induction l as [|a l IH]; intros Hf; [done|].
  change (omap f (a :: l)) with (match f a with Some y => y :: omap f l | None => omap f l end).
  rewrite (Hf a) by left. apply IH. intros x Hx. apply Hf. by right.
Qed.

Section UncountedFacts.
Context `{Collaborators}.

Lemma contributions_uncounted (filtered_norms : gmap nat Vec3d) (m : Manifold)
  (p : gmap nat Vec3d) (v : nat) :
  uncounted m v -> contributions filtered_norms (with_positions m p) v = [].
Proof.
  intros Hu. unfold contributions. apply omap_all_None. intros hid Hin. simpl in *.
  destruct (w_face m hid) as [f|] eqn:Hf; [|done].
  destruct (decide (w_vertex m hid = v)) as [Hv|]; [|done].
  rewrite (Hu hid Hin Hv) in Hf. discriminate.
Qed.

Lemma contributions_upto_uncounted (filtered_norms : gmap nat Vec3d) (m : Manifold)
  (v : nat) (s : nat) :
  uncounted m v -> contributions_upto filtered_norms m v s = [].
Proof.
  intros Hu. induction s as [|s IH]; [done|]. simpl. rewrite IH. simpl.
  destruct (relax_after_mesh filtered_norms m s) as (p & ->).
  by apply contributions_uncounted.
Qed.

Lemma relax_after_pos (filtered_norms : gmap nat Vec3d) (m : Manifold) (s : nat) (v : nat) :
  v ∈ vertices m ->
  pos (fst (relax_after filtered_norms m (S s))) v
  = average (contributions_upto filtered_norms m v (S s)).
Proof.
  intros Hv.
  destruct (relax_after_accumulators filtered_norms m (S s) v) as [A1 A2].
  destruct (relax_after_mesh filtered_norms m s) as (p & Hp).
  destruct (relax_sub_iteration_mesh filtered_norms
              (fst (relax_after filtered_norms m s))
              (snd (relax_after filtered_norms m s)))
    as (p' & Hmesh & Hlook).
  change (relax_after filtered_norms m (S s))
    with (fst (relax_sub_iteration filtered_norms
                 (fst (relax_after filtered_norms m s))
                 (snd (relax_after filtered_norms m s)))) in A1, A2 |- *.
  unfold pos. rewrite Hmesh. simpl positions.
  rewrite lookup_total_alt, Hlook; [|by rewrite Hp].
  simpl. unfold relax_npos, average. simpl in A1, A2. by rewrite A1, A2.
Qed.

Lemma relaxation_mesh (threshold : float) (filtered_norms : gmap nat Vec3d) (m : Manifold) :
  exists p, relaxation threshold filtered_norms m = with_positions m p.
Proof.
  destruct (relax_loop_after filtered_norms m threshold 100 0) as (s & _ & Heq); [lia|].
  destruct (relax_after_mesh filtered_norms m s) as (p & Hp).
  exists p. unfold relaxation. rewrite <- Hp. exact Heq.
Qed.

Lemma relaxation_uncounted (threshold : float) (filtered_norms : gmap nat Vec3d)
  (m : Manifold) (v : nat) :
  v ∈ vertices m -> uncounted m v ->
  pos (relaxation threshold filtered_norms m) v = Vec3d_of nan.
Proof.
  intros Hv Hu.
  destruct (relax_loop_after filtered_norms m threshold 100 0) as (s & Hs & Heq); [lia|].
  unfold relaxation. change (relax_loop 100 threshold filtered_norms m (∅, ∅))
    with (relax_loop 100 threshold filtered_norms (fst (relax_after filtered_norms m 0))
            (snd (relax_after filtered_norms m 0))).
  rewrite Heq. destruct s as [|s]; [lia|].
  rewrite relax_after_pos by done.
  by rewrite contributions_upto_uncounted.
Qed.

(** X13.  [anisotropic_smooth] divides the accumulated position of every
    vertex by its count without a test.  A vertex of the mesh that no
    half-edge of a face points to has the accumulator (0, 0, 0) and the
    count 0: the relaxation writes 0 / 0 at it in every sub-iteration, and
    after a call with [max_iter >= 1] its position is (NaN, NaN, NaN). *)
Theorem anisotropic_smooth_uncounted_vertex (m : Manifold) (v : nat) :
  v ∈ vertices m -> uncounted m v ->
  (forall threshold filtered_norms,
     pos (relaxation threshold filtered_norms m) v = Vec3d_of nan) /\
  (forall max_iter nsm m',
     (1 <= max_iter)%Z -> anisotropic_smooth m max_iter nsm = Ok m' ->
     pos m' v = Vec3d_of nan).
Proof.
  intros Hv Hu. split.
  - intros threshold filtered_norms. by apply relaxation_uncounted.
  - intros max_iter nsm m' Hiter. unfold anisotropic_smooth, anisotropic_smooth_run.
    intros (r & Hrun & [= <-])%bind_Ok.
    apply (for_each_invariant
             (fun pre (st : Manifold * list event) =>
                (exists p, fst st = with_positions m p) /\
                (pre <> [] -> pos (fst st) v = Vec3d_of nan))) in Hrun.
    + destruct Hrun as [_ Hnan]. apply Hnan.
      rewrite seqZ_cons by lia. done.
    + split; [|done]. exists (positions m). simpl. by rewrite with_positions_id.
    + intros pre iter st st' [(p & Hp) _]. unfold anisotropic_outer.
      intros (filtered & _ & [= <-])%bind_Ok. simpl. rewrite Hp. split.
      * destruct (relaxation_mesh (sqr (1e-8 * average_edge_length m)) filtered
                    (with_positions m p)) as (p' & ->).
        by exists p'.
      * intros _. by apply relaxation_uncounted.
Qed.

End UncountedFacts.

(** X13 on a triangle with a fourth, unconnected vertex. *)
Lemma anisotropic_smooth_uncounted_vertex_witness :
  3 ∈ vertices Sample.lone_vertex /\
  exists m',
    @anisotropic_smooth Sample.collaborators Sample.lone_vertex 1 BILATERAL_NORMAL_SMOOTH
    = Ok m' /\
    pos m' 3 = Vec3d_of nan.
Proof.
  assert (Hv : 3 ∈ vertices Sample.lone_vertex).
  { apply list_elem_of_In. vm_compute. tauto. }
  assert (Hu : uncounted Sample.lone_vertex 3).
  { intros hid Hin. vm_compute in Hin.
    repeat (apply elem_of_cons in Hin as [->|Hin]; [vm_compute; intros [=]|]).
    by apply elem_of_nil in Hin. }
  split; [exact Hv|].
  destruct (@anisotropic_bilateral_returns Sample.collaborators Sample.lone_vertex 1)
    as (r & Hrun).
  exists (fst r).
  assert (Hsmooth : @anisotropic_smooth Sample.collaborators Sample.lone_vertex 1
                      BILATERAL_NORMAL_SMOOTH = Ok (fst r)).
  { unfold anisotropic_smooth. by rewrite Hrun. }
  split; [exact Hsmooth|].
  refine (proj2 (@anisotropic_smooth_uncounted_vertex Sample.collaborators
                   Sample.lone_vertex 3 Hv Hu) 1%Z BILATERAL_NORMAL_SMOOTH (fst r) _ Hsmooth).
  lia.
Defined.

(* ===================================================================== *)
(** * 23. Tangential area-weighted smoothing, one iteration               *)
(* ===================================================================== *)

Lemma fold_left_insert_lookup {V : Type} (val : nat -> V) (l : list nat)
  (s : gmap nat V) (v : nat) :
  fold_left (fun s v => <[v := val v]> s) l s !! v
  = if decide (v ∈ l) then Some (val v) else s !! v.
Proof.
  revert s. induction l as [|a l IH]; intros s.
  - destruct (decide (v ∈ [])) as [Hin|_]; [|done]. by apply elem_of_nil in Hin.
  - change (fold_left (fun s v => <[v := val v]> s) (a :: l) s)
      with (fold_left (fun s v => <[v := val v]> s) l (<[a := val a]> s)).
    rewrite IH. destruct (decide (v ∈ l)) as [Hin|Hout].
    + rewrite decide_True; [done|]. by right.
    + destruct (decide (v = a)) as [->|Hne].
      * rewrite lookup_insert_eq, decide_True; [done|]. left.
      * rewrite lookup_insert_ne by done. rewrite decide_False; [done|].
        intros [?|?]%elem_of_cons; done.
Qed.

Section TALFacts.
Context `{Collaborators}.

Lemma TAL_vertex_area_ring (m : Manifold) (vid : nat) (l : list nat)
  (va : gmap nat float) (a : float) :
  va !! vid = Some a ->
  fold_left
    (fun va w =>
       match w_face m w with
       | Some f => <[vid := to_float32 (va !!! vid + area m f)%float]> va
       | None => va
       end) l va
  = <[vid := fold_left
               (fun a w =>
                  match w_face m w with
                  | Some f => to_float32 (a + area m f)%float
                  | None => a
                  end) l a]> va.
Proof.
  revert va a. induction l as [|w l IH]; intros va a Ha; simpl.
  - by rewrite insert_id.
  - destruct (w_face m w) as [f|].
    + rewrite (lookup_total_correct _ _ _ Ha).
      rewrite (IH _ (to_float32 (a + area m f))) by apply lookup_insert_eq.
      by rewrite insert_insert_eq.
    + by apply IH.
Qed.

Lemma TAL_vertex_area_insert (m : Manifold) (va : gmap nat float) (vid : nat) :
  TAL_vertex_area m va vid = <[vid := ring_area m vid]> va.
Proof.
  unfold TAL_vertex_area, ring_area.
  rewrite (TAL_vertex_area_ring m vid _ _ 0%float) by apply lookup_insert_eq.
  apply insert_insert_eq.
Qed.


Lemma TAL_vertex_areas_lookup (m : Manifold) (l : list nat) (v : nat) :
  fold_left (TAL_vertex_area m) l ∅ !! v
  = if decide (v ∈ l) then Some (ring_area m v) else None.
Proof.
  assert (E : forall va, fold_left (TAL_vertex_area m) l va
                         = fold_left (fun va vid => <[vid := ring_area m vid]> va) l va).
  { induction l as [|a l IH]; intros va; simpl; [done|].
    by rewrite TAL_vertex_area_insert, IH. }
  rewrite E, fold_left_insert_lookup. by destruct (decide (v ∈ l)).
Qed.

(** The last loop of an iteration: [m.pos(v) += w*laplacians[v]]. *)
Lemma TAL_move_lookup (w : float) (laplacians : gmap nat Vec3d) (l : list nat)
  (m : Manifold) (v : nat) :
  NoDup l ->
  positions
    (fold_left (fun m' vid => set_pos m' vid (vadd (pos m' vid) (smul w (laplacians !!! vid))))
       l m) !! v
  = if decide (v ∈ l) then Some (vadd (pos m v) (smul w (laplacians !!! v)))
    else positions m !! v.
Proof.
  revert m. induction l as [|a l IH]; intros m Hnd.
  - destruct (decide (v ∈ [])) as [Hin|_]; [|done]. by apply elem_of_nil in Hin.
  - apply NoDup_cons in Hnd as [Ha Hnd]. simpl fold_left. rewrite IH by done.
    destruct (decide (v ∈ l)) as [Hin|Hout].
    + rewrite decide_True by by right.
      assert (v <> a) by (intros ->; done).
      unfold pos, set_pos. simpl. by rewrite lookup_total_insert_ne.
    + unfold set_pos. simpl. destruct (decide (v = a)) as [->|Hne].
      * rewrite lookup_insert_eq, decide_True; [done|]. left.
      * rewrite lookup_insert_ne by done. rewrite decide_False; [done|].
        intros [?|?]%elem_of_cons; done.
Qed.

(** X14.  One iteration of [TAL_smoothing] is a simultaneous update: the
    area weight of a vertex is the single-precision sum of the areas of the
    faces around it, every Laplacian is taken in the mesh as it was before
    the iteration, and each vertex [v] of the mesh, boundary vertices
    included, ends at [pos(v) + w * laplacian(v)]; nothing else is written. *)
Theorem TAL_iteration_simultaneous (m : Manifold) (w : float) :
  NoDup (vertices m) ->
  let vertex_areas := fold_left (TAL_vertex_area m) (vertices m) ∅ in
  (forall v, v ∈ vertices m -> vertex_areas !!! v = ring_area m v) /\
  (forall v, v ∈ vertices m ->
     pos (TAL_iteration w m) v
     = vadd (pos m v) (smul w (TAL_laplacian m vertex_areas v))) /\
  (forall v, v ∉ vertices m -> positions (TAL_iteration w m) !! v = positions m !! v).
Proof.
  intros Hnd vertex_areas. split; [|split].
  - intros v Hv. unfold vertex_areas.
    apply lookup_total_correct. by rewrite TAL_vertex_areas_lookup, decide_True.
  - intros v Hv. unfold pos at 1, TAL_iteration. fold vertex_areas.
    rewrite lookup_total_alt, TAL_move_lookup, decide_True by done. simpl.
    do 2 f_equal. apply lookup_total_correct.
    by rewrite fold_left_insert_lookup, decide_True.
  - intros v Hv. unfold TAL_iteration. by rewrite TAL_move_lookup, decide_False.
Qed.

Lemma TAL_iteration_mesh (w : float) (m : Manifold) :
  exists p, TAL_iteration w m = with_positions m p.
Proof.
  unfold TAL_iteration.
  apply (fold_left_invariant (fun m' => exists p, m' = with_positions m p)).
  - exists (positions m). by rewrite with_positions_id.
  - intros m' vid (p & ->). eexists. reflexivity.
Qed.

(** X15.  The four smoothers change positions only: the mesh each returns
    is the input mesh with another position vector, so its vertices, faces,
    half-edges, boundary and walkers are those of the input. *)
Theorem smoothing_keeps_connectivity (m : Manifold) :
  (forall weight max_iter m',
     laplacian_smooth m weight max_iter = Ok m' -> exists p, m' = with_positions m p) /\
  (forall max_iter m',
     taubin_smooth m max_iter = Ok m' -> exists p, m' = with_positions m p) /\
  (forall max_iter nsm m',
     anisotropic_smooth m max_iter nsm = Ok m' -> exists p, m' = with_positions m p) /\
  (forall w max_iter, exists p, TAL_smoothing m w max_iter = with_positions m p).
Proof.
  split; [|split; [|split]].
  - intros weight max_iter m'. unfold laplacian_smooth.
    intros (batches & _ & [= <-])%bind_Ok.
    apply (fold_left_invariant
             (fun st : Manifold * gmap nat Vec3d => exists p, fst st = with_positions m p)).
    + exists (positions m). simpl. by rewrite with_positions_id.
    + intros st _ (p & Hp). unfold laplacian_iteration. simpl. rewrite Hp. eexists. reflexivity.
  - intros max_iter m'. unfold taubin_smooth.
    intros (n & _ & [= <-])%bind_Ok.
    apply (fold_left_invariant
             (fun st : Manifold * gmap nat Vec3d => exists p, fst st = with_positions m p)).
    + exists (positions m). simpl. by rewrite with_positions_id.
    + intros st iter (p & Hp). unfold taubin_iteration. simpl. rewrite Hp. eexists. reflexivity.
  - intros max_iter nsm m'. unfold anisotropic_smooth, anisotropic_smooth_run.
    intros (r & Hrun & [= <-])%bind_Ok.
    apply (for_each_invariant
             (fun _ (st : Manifold * list event) => exists p, fst st = with_positions m p))
      in Hrun; [done| |].
    + exists (positions m). simpl. by rewrite with_positions_id.
    + intros pre iter st st' (p & Hp). unfold anisotropic_outer.
      intros (filtered & _ & [= <-])%bind_Ok. simpl. rewrite Hp.
      destruct (relaxation_mesh (sqr (1e-8 * average_edge_length m)) filtered
                  (with_positions m p)) as (p' & ->).
      by exists p'.
  - intros w max_iter. unfold TAL_smoothing.
    apply (fold_left_invariant (fun m' => exists p, m' = with_positions m p)).
    + exists (positions m). by rewrite with_positions_id.
    + intros m' _ (p & ->). destruct (TAL_iteration_mesh w (with_positions m p)) as (p' & ->).
      by exists p'.
Qed.

End TALFacts.

(** X14 on the grid, at its interior vertex. *)
Lemma TAL_iteration_simultaneous_witness :
  NoDup (vertices Sample.grid) /\
  pos (@TAL_iteration Sample.collaborators 0.5 Sample.grid) 4
  = vadd (pos Sample.grid 4)
      (smul 0.5 (@TAL_laplacian Sample.collaborators Sample.grid
                   (fold_left (@TAL_vertex_area Sample.collaborators Sample.grid)
                      (vertices Sample.grid) ∅) 4)).
Proof.
  assert (Hnd : NoDup (vertices Sample.grid)) by exact (NoDup_seq 0 9).
  assert (Hv : 4 ∈ vertices Sample.grid).
  { apply list_elem_of_In. vm_compute. tauto. }
  split; [exact Hnd|].
  pose proof (@TAL_iteration_simultaneous Sample.collaborators Sample.grid 0.5 Hnd) as T.
  cbv zeta in T. destruct T as (_ & T & _). exact (T 4 Hv).
Defined.

(* ===================================================================== *)
(** * 24. Clamped angles                                                  *)
(* ===================================================================== *)

Lemma ltb_leb (x y : float) : (x <? y)%float = true -> (x <=? y)%float = true.
Proof.
  rewrite FloatAxioms.ltb_spec, FloatAxioms.leb_spec. unfold SFltb, SFleb.
  by destruct (SFcompare _ _) as [[]|].
Qed.

(** X16.  The argument every [acos] of smooth.cpp receives lies in
    [-1, 1] and is not NaN, whatever the dot product [d] was:
    [min(1.0, max(-1.0, d))] in [cot_laplacian], [max(-1.0, min(1.0, d))] in
    [bilateral_filtered_normal] and [TAL_smoothing].  A NaN dot product
    becomes -1 in the first order and 1 in the second. *)
Theorem acos_argument_clamped (d : float) :
  let lo_hi := std_min 1 (std_max (-1) d) in
  let hi_lo := std_max (-1) (std_min 1 d) in
  ((-1 <=? lo_hi)%float = true /\ (lo_hi <=? 1)%float = true) /\
  ((-1 <=? hi_lo)%float = true /\ (hi_lo <=? 1)%float = true) /\
  (is_nan d = true -> lo_hi = (-1)%float /\ hi_lo = 1%float).
Proof.
  cbv zeta. unfold std_min, std_max. split; [|split].
  - destruct (-1 <? d)%float eqn:E1.
    + destruct (d <? 1)%float eqn:E2.
      * split; by apply ltb_leb.
      * split; reflexivity.
    + change (-1 <? 1)%float with true. cbv iota. split; reflexivity.
  - destruct (d <? 1)%float eqn:E1.
    + destruct (-1 <? d)%float eqn:E2.
      * split; by apply ltb_leb.
      * split; reflexivity.
    + change (-1 <? 1)%float with true. cbv iota. split; reflexivity.
  - intros Hn. rewrite (is_nan_ltb_r _ _ Hn), (is_nan_ltb_l _ _ Hn).
    change (-1 <? 1)%float with true. split; reflexivity.
Qed.

(* ===================================================================== *)
(** * 25. How the smoothers compose                                       *)
(* ===================================================================== *)

Lemma SF64add_comm (x y : spec_float) :
  FloatAxioms.SF64add x y = FloatAxioms.SF64add y x.
Proof.
  destruct x as [sx|sx| |sx mx ex], y as [sy|sy| |sy my ey]; try reflexivity;
    try (by destruct sx, sy).
  unfold FloatAxioms.SF64add, SFadd. by rewrite Z.min_comm, Z.add_comm.
Qed.

Lemma Prim2SF_inj (x y : float) : Prim2SF x = Prim2SF y -> x = y.
Proof.
  intros E. rewrite <- (FloatAxioms.SF2Prim_Prim2SF x), <- (FloatAxioms.SF2Prim_Prim2SF y).
  by rewrite E.
Qed.

Lemma float_add_comm (x y : float) : (x + y)%float = (y + x)%float.
Proof. apply Prim2SF_inj. rewrite !FloatAxioms.add_spec. apply SF64add_comm. Qed.

Lemma vadd_comm (a b : Vec3d) : vadd a b = vadd b a.
Proof.
  unfold vadd. by rewrite (float_add_comm (vx a)), (float_add_comm (vy a)), (float_add_comm (vz a)).
Qed.

Lemma with_positions_inj_lookup (m : Manifold) (p q : gmap nat Vec3d) :
  (forall v, p !! v = q !! v) -> with_positions m p = with_positions m q.
Proof. intros E. f_equal. by apply map_eq. Qed.

Section ComposeFacts.
Context `{Collaborators}.

(** Outside the non-boundary vertices, both buffers of [taubin_smooth] keep
    the entries of the input. *)
Lemma taubin_after_outside (m : Manifold) (n : nat) (v : nat) :
  ~ (v ∈ vertices m /\ boundary m v = false) ->
  positions (fst (taubin_after m n)) !! v = positions m !! v /\
  snd (taubin_after m n) !! v = positions m !! v.
Proof.
  intros Hout. induction n as [|n [IH1 IH2]]; [done|].
  destruct (taubin_after_topology m n) as [Hv Hb].
  simpl. split; [|done].
  by rewrite taubin_write_lookup, Hv, Hb, decide_False.
Qed.

Lemma taubin_after_mesh (m : Manifold) (n : nat) :
  exists p, fst (taubin_after m n) = with_positions m p.
Proof.
  induction n as [|n (p & IH)].
  - exists (positions m). simpl. by rewrite with_positions_id.
  - simpl. rewrite IH. eexists. reflexivity.
Qed.

Lemma taubin_after_positions (m : Manifold) (n : nat) (v : nat) :
  positions (fst (taubin_after m (S n))) !! v
  = if decide (v ∈ vertices m /\ boundary m v = false)
    then Some (vadd (smul (taubin_step (Z.of_nat n)) (laplacian (fst (taubin_after m n)) v))
                 (pos (fst (taubin_after m n)) v))
    else positions m !! v.
Proof.
  destruct (taubin_after_topology m n) as [Hv Hb].
  simpl. rewrite taubin_write_lookup, Hv, Hb.
  destruct (decide _) as [|Hout]; [done|]. by apply taubin_after_outside.
Qed.

Lemma taubin_step_shift (k j : nat) :
  taubin_step (Z.of_nat (2 * k + j)) = taubin_step (Z.of_nat j).
Proof.
  unfold taubin_step.
  rewrite Nat2Z.inj_add, Nat2Z.inj_mul. change (Z.of_nat 2) with 2%Z.
  by rewrite Z.add_comm, Z.mul_comm, Z.mod_add by lia.
Qed.

Lemma taubin_after_restart (m : Manifold) (k j : nat) :
  fst (taubin_after m (2 * k + j)) = fst (taubin_after (fst (taubin_after m (2 * k))) j).
Proof.
  induction j as [|j IH].
  - by rewrite Nat.add_0_r.
  - destruct (taubin_after_mesh m (2 * k)) as (pk & Hk).
    destruct (taubin_after_mesh m (2 * k + S j)) as (p1 & H1).
    destruct (taubin_after_mesh (fst (taubin_after m (2 * k))) (S j)) as (p2 & H2).
    rewrite H1, H2, Hk.
    change (with_positions (with_positions m pk) p2) with (with_positions m p2).
    apply with_positions_inj_lookup. intros v.
    assert (E1 : p1 = positions (fst (taubin_after m (2 * k + S j)))) by (by rewrite H1).
    assert (E2 : p2 = positions (fst (taubin_after (fst (taubin_after m (2 * k))) (S j))))
      by (by rewrite H2).
    rewrite E1, E2.
    rewrite Nat.add_succ_r, !taubin_after_positions, <- IH, taubin_step_shift.
    destruct (taubin_after_topology m (2 * k)) as [Hv Hbd]. rewrite Hv, Hbd.
    destruct (decide _) as [|Hout]; [done|].
    symmetry. by apply taubin_after_outside.
Qed.

Lemma taubin_smooth_returns (m : Manifold) (c : Z) :
  (0 <= c <= 1073741823)%Z ->
  taubin_smooth m c = Ok (fst (taubin_after m (2 * Z.to_nat c))).
Proof.
  intros Hc. unfold taubin_smooth, int_mul, int_in_range, INT_MIN, INT_MAX.
  destruct (-2147483648 <=? 2 * c)%Z eqn:E1; [|lia].
  destruct (2 * c <=? 2147483647)%Z eqn:E2; [|lia].
  simpl. f_equal. f_equal.
  rewrite <- (taubin_smooth_after m (2 * Z.to_nat c)). f_equal. f_equal. lia.
Qed.

(** X18.  Calls of [taubin_smooth] compose: [a] iterations followed by [b]
    iterations on the result give the mesh that [a + b] iterations give.
    The second call starts from a fresh copy of the positions, the single
    call goes on with the buffer it wrote two sub-iterations before; the
    two differ at no entry that is read. *)
Theorem taubin_smooth_composes (m m1 m2 : Manifold) (a b : Z) :
  (0 <= a)%Z -> (0 <= b)%Z -> (a + b <= 1073741823)%Z ->
  taubin_smooth m a = Ok m1 -> taubin_smooth m1 b = Ok m2 ->
  taubin_smooth m (a + b) = Ok m2.
Proof.
  intros Ha Hb Hab.
  rewrite !taubin_smooth_returns by lia. intros [= <-] [= <-]. f_equal.
  replace (2 * Z.to_nat (a + b)) with (2 * Z.to_nat a + 2 * Z.to_nat b) by lia.
  apply taubin_after_restart.
Qed.

Lemma laplacian_after_mesh (weight : float) (batches : list (list nat)) (m : Manifold) (n : nat) :
  exists p, fst (laplacian_after weight batches m n) = with_positions m p.
Proof.
  induction n as [|n (p & IH)].
  - exists (positions m). simpl. by rewrite with_positions_id.
  - simpl. rewrite IH. eexists. reflexivity.
Qed.

Lemma batch_vertices_with_positions (m : Manifold) (p : gmap nat Vec3d) :
  batch_vertices (with_positions m p) = batch_vertices m.
Proof. reflexivity. Qed.

Lemma laplacian_after_restart (weight : float) (batches : list (list nat)) (m : Manifold)
  (k j : nat) :
  batch_vertices m = Ok batches ->
  fst (laplacian_after weight batches m (k + j))
  = fst (laplacian_after weight batches (fst (laplacian_after weight batches m k)) j).
Proof.
  intros Hb. induction j as [|j IH].
  - by rewrite Nat.add_0_r.
  - destruct (laplacian_after_mesh weight batches m k) as (pk & Hk).
    destruct (laplacian_after_mesh weight batches m (k + S j)) as (p1 & H1).
    destruct (laplacian_after_mesh weight batches
                (fst (laplacian_after weight batches m k)) (S j)) as (p2 & H2).
    rewrite H1, H2, Hk.
    change (with_positions (with_positions m pk) p2) with (with_positions m p2).
    apply with_positions_inj_lookup. intros v.
    assert (E1 : p1 = positions (fst (laplacian_after weight batches m (k + S j))))
      by (by rewrite H1).
    assert (E2 : p2 = positions (fst (laplacian_after weight batches
                                        (fst (laplacian_after weight batches m k)) (S j))))
      by (by rewrite H2).
    rewrite E1, E2.
    rewrite Nat.add_succ_r.
    destruct (laplacian_after_positions weight m batches (k + j) v Hb) as [_ ->].
    assert (Hbk : batch_vertices (fst (laplacian_after weight batches m k)) = Ok batches)
      by (by rewrite Hk).
    destruct (laplacian_after_positions weight _ batches j v Hbk) as [_ ->].
    rewrite <- IH.
    assert (Hv : vertices (fst (laplacian_after weight batches m k)) = vertices m)
      by (by rewrite Hk).
    assert (Hbd : boundary (fst (laplacian_after weight batches m k)) = boundary m)
      by (by rewrite Hk).
    rewrite Hv, Hbd.
    destruct (decide _) as [|Hout]; [done|].
    symmetry.
    destruct (laplacian_after_positions weight m batches k v Hb) as [Ho _].
    by apply Ho.
Qed.

Lemma laplacian_smooth_returns (m : Manifold) (weight : float)
  (batches : list (list nat)) (c : Z) :
  (0 <= c <= INT_MAX)%Z -> batch_vertices m = Ok batches ->
  laplacian_smooth m weight c
  = Ok (fst (laplacian_after weight batches m (Z.to_nat c))).
Proof.
  intros Hc Hb. unfold laplacian_smooth. rewrite Hb. simpl.
  rewrite laplacian_smooth_after. unfold range.
  rewrite length_seqZ, Z.sub_0_r, Z.mod_small; [done|].
  unfold INT_MAX in Hc. lia.
Qed.

Lemma batch_vertices_after (m : Manifold) (weight : float) (batches : list (list nat))
  (n : nat) :
  batch_vertices m = Ok batches ->
  batch_vertices (fst (laplacian_after weight batches m n)) = Ok batches.
Proof.
  intros Hb. destruct (laplacian_after_mesh weight batches m n) as (p & ->). exact Hb.
Qed.

(** X19.  Calls of [laplacian_smooth] compose: [a] passes followed by [b]
    passes on the result give the mesh that [a + b] passes give, although
    the second call starts from a fresh copy of the positions where the
    single call goes on with the buffer it read two passes before. *)
Theorem laplacian_smooth_composes (m m1 m2 : Manifold) (weight : float) (a b : Z) :
  (0 <= a)%Z -> (0 <= b)%Z -> (a + b <= INT_MAX)%Z ->
  laplacian_smooth m weight a = Ok m1 -> laplacian_smooth m1 weight b = Ok m2 ->
  laplacian_smooth m weight (a + b) = Ok m2.
Proof.
  intros Ha Hb Hab.
  destruct (batch_vertices m) as [batches|f] eqn:Hbm.
  2:{ unfold laplacian_smooth. rewrite Hbm. discriminate. }
  rewrite (laplacian_smooth_returns m weight batches a) by (done || lia). intros [= <-].
  rewrite (laplacian_smooth_returns _ weight batches b)
    by (lia || by apply batch_vertices_after).
  intros [= <-].
  rewrite (laplacian_smooth_returns m weight batches (a + b)%Z) by (done || lia). f_equal.
  rewrite Z2Nat.inj_add by done. by apply laplacian_after_restart.
Qed.

(** X20.  The first sub-iteration of [taubin_smooth] is one pass of
    [laplacian_smooth] with weight 0.5: wherever [batch_vertices] returns,
    [laplacian_smooth(m, 0.5, 1)] gives the mesh [taubin_smooth] holds after
    its sub-iteration 0.  The two write [pos + 0.5 * laplacian] and
    [0.5 * laplacian + pos], the same binary64 vector. *)
Theorem taubin_first_sub_iteration (m : Manifold) (batches : list (list nat)) :
  batch_vertices m = Ok batches ->
  laplacian_smooth m 0.5 1 = Ok (fst (taubin_after m 1)).
Proof.
  intros Hb. unfold laplacian_smooth. rewrite Hb. simpl. f_equal.
  apply with_positions_inj_lookup. intros v.
  pose proof Hb as [Hlen Hperm]%batch_vertices_partition.
  rewrite for_each_vertex_parallel_all by done.
  rewrite laplacian_batches_lookup, taubin_write_lookup.
  destruct (decide (v ∈ concat batches)) as [Hc|Hc].
  - rewrite decide_True by (apply (elem_of_accepted m); by rewrite <- Hperm).
    by rewrite vadd_comm.
  - rewrite decide_False; [done|]. intros Ha%(elem_of_accepted m). by rewrite <- Hperm in Ha.
Qed.

(** A loop that ignores its counter depends on the number of passes only. *)
Lemma fold_left_ignore {A S : Type} (f : S -> S) (l1 l2 : list A) (s : S) :
  length l1 = length l2 ->
  fold_left (fun s _ => f s) l1 s = fold_left (fun s _ => f s) l2 s.
Proof.
  revert l2 s. induction l1 as [|a l1 IH]; intros [|b l2] s Hlen; simpl in *; try done.
  apply IH. lia.
Qed.

(** X21.  Calls of [TAL_smoothing] compose: [a] iterations followed by [b]
    iterations on the result are [a + b] iterations. *)
Theorem TAL_smoothing_composes (m : Manifold) (w : float) (a b : Z) :
  (0 <= a)%Z -> (0 <= b)%Z ->
  TAL_smoothing (TAL_smoothing m w a) w b = TAL_smoothing m w (a + b).
Proof.
  intros Ha Hb. unfold TAL_smoothing.
  rewrite (seqZ_app 0 a b), fold_left_app by done.
  apply (fold_left_ignore (TAL_iteration w)). by rewrite !length_seqZ.
Qed.

End ComposeFacts.

(** X19 on the grid: one pass, then one pass. *)
Lemma laplacian_smooth_composes_witness :
  let batches := [[4]; []; []; []; []; []; []; []] in
  let m1 := fst (@laplacian_after Sample.collaborators 0.5 batches Sample.grid (Z.to_nat 1)) in
  let m2 := fst (@laplacian_after Sample.collaborators 0.5 batches m1 (Z.to_nat 1)) in
  @laplacian_smooth Sample.collaborators Sample.grid 0.5 (1 + 1) = Ok m2.
Proof.
  intros batches m1 m2.
  assert (Hb : batch_vertices Sample.grid = Ok batches) by reflexivity.
  assert (Hr : (0 <= 1 <= INT_MAX)%Z) by (unfold INT_MAX; lia).
  apply (@laplacian_smooth_composes Sample.collaborators Sample.grid m1 m2 0.5 1 1);
    [lia|lia|unfold INT_MAX; lia| |].
  - exact (@laplacian_smooth_returns Sample.collaborators Sample.grid 0.5 batches 1 Hr Hb).
  - exact (@laplacian_smooth_returns Sample.collaborators m1 0.5 batches 1 Hr
             (@batch_vertices_after Sample.collaborators Sample.grid 0.5 batches _ Hb)).
Defined.

(** X18 on the grid: one iteration, then one iteration. *)
Lemma taubin_smooth_composes_witness :
  let m1 := fst (@taubin_after Sample.collaborators Sample.grid (2 * Z.to_nat 1)) in
  let m2 := fst (@taubin_after Sample.collaborators m1 (2 * Z.to_nat 1)) in
  @taubin_smooth Sample.collaborators Sample.grid (1 + 1) = Ok m2.
Proof.
  intros m1 m2.
  assert (Hr : (0 <= 1 <= 1073741823)%Z) by lia.
  apply (@taubin_smooth_composes Sample.collaborators Sample.grid m1 m2 1 1); [lia|lia|lia| |].
  - exact (@taubin_smooth_returns Sample.collaborators Sample.grid 1 Hr).
  - exact (@taubin_smooth_returns Sample.collaborators m1 1 Hr).
Defined.

(** X20 on the grid. *)
Lemma taubin_first_sub_iteration_witness :
  batch_vertices Sample.grid = Ok [[4]; []; []; []; []; []; []; []] /\
  @laplacian_smooth Sample.collaborators Sample.grid 0.5 1
  = Ok (fst (@taubin_after Sample.collaborators Sample.grid 1)).
Proof.
  assert (Hb : batch_vertices Sample.grid = Ok [[4]; []; []; []; []; []; []; []])
    by reflexivity.
  split; [exact Hb|].
  exact (@taubin_first_sub_iteration Sample.collaborators Sample.grid _ Hb).
Defined.

(** X21 on the grid: two iterations, then three. *)
Lemma TAL_smoothing_composes_witness :
  @TAL_smoothing Sample.collaborators
    (@TAL_smoothing Sample.collaborators Sample.grid 0.5 2) 0.5 3
  = @TAL_smoothing Sample.collaborators Sample.grid 0.5 (2 + 3).
Proof.
  apply (@TAL_smoothing_composes Sample.collaborators); lia.
Defined.

(* ===================================================================== *)
(** * 26. When the relaxation stops                                       *)
(* ===================================================================== *)

Section RelaxationExit.
Context `{Collaborators}.

Lemma relax_loop_exit (filtered_norms : gmap nat Vec3d) (m : Manifold)
  (threshold : float) (k t : nat) :
  exists n, t <= n < t + S k /\
    relax_loop (S k) threshold filtered_norms (fst (relax_after filtered_norms m t))
      (snd (relax_after filtered_norms m t))
    = fst (relax_after filtered_norms m (S n)) /\
    (forall s, t <= s < n ->
       (relax_max_move filtered_norms m s <? threshold)%float = false) /\
    (n < t + k -> (relax_max_move filtered_norms m n <? threshold)%float = true).
Proof.
  revert t. induction k as [|k IH]; intros t.
  - exists t. split; [lia|]. split; [|split; [intros; lia|lia]].
    set (st := relax_after filtered_norms m t).
    set (r := relax_sub_iteration filtered_norms (fst st) (snd st)).
    change (relax_loop 1 threshold filtered_norms (fst st) (snd st))
      with (if (snd r <? threshold)%float then fst (fst r) else fst (fst r)).
    by destruct (snd r <? threshold)%float.
  - set (st := relax_after filtered_norms m t).
    set (r := relax_sub_iteration filtered_norms (fst st) (snd st)).
    change (relax_loop (S (S k)) threshold filtered_norms (fst st) (snd st))
      with (if (snd r <? threshold)%float then fst (fst r)
            else relax_loop (S k) threshold filtered_norms (fst (fst r)) (snd (fst r))).
    assert (Hr : relax_after filtered_norms m (S t) = fst r) by reflexivity.
    assert (Hm : relax_max_move filtered_norms m t = snd r) by reflexivity.
    destruct (snd r <? threshold)%float eqn:E.
    + exists t. split; [lia|]. split; [by rewrite Hr|]. split; [intros; lia|].
      intros _. by rewrite Hm.
    + destruct (IH (S t)) as (n & Hn & Heq & Hbefore & Hlast).
      exists n. split; [lia|]. split; [|split].
      * rewrite <- Heq, Hr. reflexivity.
      * intros s Hs. destruct (decide (s = t)) as [->|Hne]; [by rewrite Hm|].
        apply Hbefore. lia.
      * intros Hlt. apply Hlast. lia.
Qed.

(** X22.  The relaxation loop of [anisotropic_smooth] runs the sub-iterations
    0, 1, ... and leaves after the first one whose [max_move] is below the
    threshold, or after sub-iteration 99: it returns the mesh written by the
    sub-iteration [n] at which it stops, every [max_move] before [n] was not
    below the threshold, and when [n < 99] the one of [n] was.  No
    [max_move] is below a NaN threshold, so then all 100 sub-iterations
    run. *)
Theorem relaxation_exit (threshold : float) (filtered_norms : gmap nat Vec3d)
  (m : Manifold) :
  (exists n, n < 100 /\
     relaxation threshold filtered_norms m = fst (relax_after filtered_norms m (S n)) /\
     (forall s, s < n ->
        (relax_max_move filtered_norms m s <? threshold)%float = false) /\
     (n < 99 -> (relax_max_move filtered_norms m n <? threshold)%float = true)) /\
  (is_nan threshold = true ->
   relaxation threshold filtered_norms m = fst (relax_after filtered_norms m 100)).
Proof.
  destruct (relax_loop_exit filtered_norms m threshold 99 0)
    as (n & Hn & Heq & Hbefore & Hlast).
  split.
  - exists n. split; [lia|]. split; [exact Heq|]. split.
    + intros s Hs. apply Hbefore. lia.
    + intros Hlt. apply Hlast. lia.
  - intros Hnan. destruct (decide (n = 99)) as [->|Hne]; [exact Heq|].
    rewrite (is_nan_ltb_r _ _ Hnan) in Hlast. discriminate Hlast. lia.
Qed.

End RelaxationExit.

(* ===================================================================== *)
(** * 27. Tangential area-weighted smoothing on zero areas                *)
(* ===================================================================== *)

Lemma is_nan_eq (x : float) : is_nan x = true -> x = nan.
Proof. intros Hx%is_nan_Prim2SF. apply Prim2SF_inj. by rewrite Hx. Qed.

Lemma mul_zero_r (x : float) : zero_or_nan (x * 0).
Proof.
  unfold zero_or_nan. rewrite FloatAxioms.mul_spec.
  change (Prim2SF 0) with (S754_zero false).
  by destruct (Prim2SF x).
Qed.

Lemma add_zero_or_nan (x y : float) :
  zero_or_nan x -> zero_or_nan y -> zero_or_nan (x + y).
Proof.
  unfold zero_or_nan. rewrite FloatAxioms.add_spec.
  destruct (Prim2SF x) as [sx|sx| |sx mx ex], (Prim2SF y) as [sy|sy| |sy my ey];
    try done.
  by destruct sx, sy.
Qed.

Lemma div_zero_or_nan (x : float) : zero_or_nan x -> (x / 0)%float = nan.
Proof.
  unfold zero_or_nan. intros Hx. apply Prim2SF_inj. rewrite FloatAxioms.div_spec.
  change (Prim2SF 0) with (S754_zero false).
  by destruct (Prim2SF x).
Qed.

Section ZeroAreaFacts.
Context `{Collaborators}.

Lemma TAL_interior_zero_weights (m : Manifold) (vertex_areas : gmap nat float) (v : nat) :
  (forall w, w ∈ ring_ccw m v -> vertex_areas !!! w_vertex m w = 0%float) ->
  TAL_interior_laplacian m vertex_areas v = Vec3d_of nan.
Proof.
  intros Hz. unfold TAL_interior_laplacian.
  assert (G : forall l st, (forall w, w ∈ l -> vertex_areas !!! w_vertex m w = 0%float) ->
            vec_zero_or_nan (fst st) -> snd st = 0%float ->
            vec_zero_or_nan (fst (fold_left (TAL_interior_step m vertex_areas v) l st)) /\
            snd (fold_left (TAL_interior_step m vertex_areas v) l st) = 0%float).
  { induction l as [|w l IH]; intros st Hl Hst Hws; simpl; [done|].
    apply IH.
    - intros w' Hw'. apply Hl. by right.
    - unfold TAL_interior_step. simpl. rewrite (Hl w) by left.
      destruct Hst as (Hx & Hy & Hzz).
      repeat split; simpl; apply add_zero_or_nan; try done; apply mul_zero_r.
    - unfold TAL_interior_step. simpl. rewrite (Hl w) by left. by rewrite Hws. }
  destruct (G (ring_ccw m v) (Vec3d_of 0, 0%float) Hz) as [(Hx & Hy & Hzz) Hws];
    [by repeat split|done|].
  rewrite Hws. unfold vdiv, Vec3d_of.
  by rewrite !div_zero_or_nan.
Qed.

(** X23.  [TAL_smoothing] divides the Laplacian of a vertex by the sum of
    its weights without a test.  At a vertex off the boundary whose
    neighbours all have the area weight 0, each term [weight * l] is a zero
    or NaN, [weight_sum] is 0, the Laplacian is (NaN, NaN, NaN), and one
    iteration leaves the vertex at (NaN, NaN, NaN), wherever it was and
    whatever [w] is. *)
Theorem TAL_iteration_zero_area (m : Manifold) (w : float) (v : nat) :
  NoDup (vertices m) -> v ∈ vertices m -> boundary m v = false ->
  (forall wk, wk ∈ ring_ccw m v ->
     w_vertex m wk ∈ vertices m /\ ring_area m (w_vertex m wk) = 0%float) ->
  TAL_laplacian m (fold_left (TAL_vertex_area m) (vertices m) ∅) v = Vec3d_of nan /\
  pos (TAL_iteration w m) v = Vec3d_of nan.
Proof.
  intros Hnd Hv Hb Hring.
  assert (HL : TAL_laplacian m (fold_left (TAL_vertex_area m) (vertices m) ∅) v
               = Vec3d_of nan).
  { unfold TAL_laplacian. rewrite Hb. apply TAL_interior_zero_weights.
    intros wk Hwk. destruct (Hring wk Hwk) as [Hin Hz].
    apply lookup_total_correct. by rewrite TAL_vertex_areas_lookup, decide_True, Hz. }
  split; [exact HL|].
  unfold pos at 1, TAL_iteration.
  rewrite lookup_total_alt, TAL_move_lookup, decide_True by done. simpl.
  rewrite (lookup_total_correct _ v (Vec3d_of nan))
    by (by rewrite fold_left_insert_lookup, decide_True, HL).
  unfold vadd, smul, Vec3d_of. simpl.
  by rewrite !(is_nan_eq (_ + nan * w)) by (apply is_nan_add_r, is_nan_mul_l; reflexivity).
Qed.

End ZeroAreaFacts.

(** X23 on the tetrahedron whose vertices lie at one point. *)
Lemma TAL_iteration_zero_area_witness :
  pos (@TAL_iteration Sample.collaborators 0.5 Sample.collapsed_tetrahedron) 0
  = Vec3d_of nan.
Proof.
  apply (@TAL_iteration_zero_area Sample.collaborators).
  - exact (NoDup_seq 0 4).
  - apply list_elem_of_In. vm_compute. tauto.
  - reflexivity.
  - intros wk Hwk. vm_compute in Hwk.
    repeat (apply elem_of_cons in Hwk as [->|Hwk];
            [split; [apply list_elem_of_In; vm_compute; tauto|vm_compute; reflexivity]|]).
    by apply elem_of_nil in Hwk.
Defined.

(* ===================================================================== *)
(** * 28. A NaN normal in the neighbourhood                               *)
(* ===================================================================== *)

Lemma is_nan_div_l x y : is_nan x = true -> is_nan (x / y) = true.
Proof. rewrite !is_nan_Prim2SF, FloatAxioms.div_spec. intros ->. reflexivity. Qed.

(** A coordinate of a weighted sum of vectors is NaN as soon as it is NaN in
    one of the vectors, whatever the weights. *)
Lemma weighted_sum_nan {A : Type} (c : Vec3d -> float) (wt : A -> float)
  (nv : A -> Vec3d) (l : list A) (acc : Vec3d) :
  (forall a b, c (vadd a b) = (c a + c b)%float) ->
  (forall k v, c (smul k v) = (c v * k)%float) ->
  is_nan (c acc) = true \/ (exists g, g ∈ l /\ is_nan (c (nv g)) = true) ->
  is_nan (c (fold_left (fun fn g => vadd fn (smul (wt g) (nv g))) l acc)) = true.
Proof.
  intros Hadd Hmul. revert acc. induction l as [|a l IH]; intros acc Hnan; simpl.
  - destruct Hnan as [Hacc|(g & Hg & _)]; [done|]. by apply elem_of_nil in Hg.
  - apply IH. destruct Hnan as [Hacc|(g & Hg & Hn)].
    + left. rewrite Hadd. by apply is_nan_add_l.
    + apply elem_of_cons in Hg as [->|Hg]; [|right; eauto].
      left. rewrite Hadd, Hmul. by apply is_nan_add_r, is_nan_mul_l.
Qed.

Lemma normalize_nan (v : Vec3d) : vec_isnan v = true -> vec_isnan (normalize v) = true.
Proof.
  unfold vec_isnan, isnan, normalize, vdiv. simpl.
  intros [[Hx|Hy]%orb_true_iff|Hz]%orb_true_iff.
  - by rewrite is_nan_div_l.
  - rewrite (is_nan_div_l (vy v)) by done. by rewrite orb_true_r.
  - rewrite (is_nan_div_l (vz v)) by done. by rewrite orb_true_r.
Qed.

Lemma weighted_sum_vec_nan {A : Type} (wt : A -> float) (nv : A -> Vec3d)
  (l : list A) (acc : Vec3d) (g : A) :
  g ∈ l -> vec_isnan (nv g) = true ->
  vec_isnan (fold_left (fun fn g => vadd fn (smul (wt g) (nv g))) l acc) = true.
Proof.
  intros Hg. unfold vec_isnan, isnan.
  intros [[Hx|Hy]%orb_true_iff|Hz]%orb_true_iff.
  - rewrite (weighted_sum_nan vx); [done|done|done|]. right. eauto.
  - rewrite (weighted_sum_nan vy); [by rewrite orb_true_r|done|done|]. right. eauto.
  - rewrite (weighted_sum_nan vz); [by rewrite orb_true_r|done|done|]. right. eauto.
Qed.

Section FilterNanFacts.
Context `{Collaborators}.

(** X24.  One face of the neighbourhood of [f] whose normal has a NaN
    coordinate is enough to spoil both normal filters, whatever its weight
    (a weight of 0 included): [bilateral_filtered_normal] returns a vector
    with a NaN coordinate, and so does [fvm_filtered_normal] whenever it
    returns. *)
Theorem normal_filters_propagate_nan (m : Manifold) (f g : nat) :
  g ∈ face_neighbourhood m f [] -> vec_isnan (normal m g) = true ->
  (forall avg_len, vec_isnan (bilateral_filtered_normal m f avg_len) = true) /\
  (forall r, fvm_filtered_normal m f = Ok r -> vec_isnan r = true).
Proof.
  intros Hg Hnan. split.
  - intros avg_len. unfold bilateral_filtered_normal.
    apply normalize_nan.
    by apply (weighted_sum_vec_nan
                (bilateral_weight m (centre m f) (normal m f) avg_len) (normal m) _ _ g).
  - intros r. unfold fvm_filtered_normal, fvm_filter.
    set (nbrs := face_neighbourhood m f []) in *.
    destruct (fvm_median_state m nbrs (length nbrs)) as [Hn _]; [lia|].
    set (st := fold_left (fvm_median_step m nbrs) (seq 0 (length nbrs))
                 (replicate (length nbrs) Vec3d_default, min_dist_sum0, (-1)%Z)) in *.
    rewrite Nat.sub_diag, firstn_all in Hn. simpl in Hn. rewrite app_nil_r in Hn.
    destruct (snd st =? -1)%Z; [discriminate|]. intros [= <-].
    apply normalize_nan. rewrite Hn. unfold fvm_average.
    apply (weighted_sum_vec_nan (fvm_weight _) id _ _ (normal m g)); [|done].
    apply list_elem_of_fmap. eauto.
Qed.

End FilterNanFacts.

(** X24 on the tetrahedron whose coordinates are NaN. *)
Lemma normal_filters_propagate_nan_witness :
  vec_isnan (@bilateral_filtered_normal Sample.collaborators Sample.nan_tetrahedron 0 1)
  = true.
Proof.
  assert (Hg : 0 ∈ face_neighbourhood Sample.nan_tetrahedron 0 []).
  { apply list_elem_of_In. vm_compute. tauto. }
  assert (Hnan : vec_isnan (@normal Sample.collaborators Sample.nan_tetrahedron 0) = true)
    by (vm_compute; reflexivity).
  exact (proj1 (@normal_filters_propagate_nan Sample.collaborators
                  Sample.nan_tetrahedron 0 0 Hg Hnan) 1%float).
Defined.
